(** * LISA: the smoke test scenario and the marker validation

    A shallow embedding of [testsuites/test_smoke.py] (the smoke test of a
    deployed VM: ping, SSH, reboot over SSH with the platform as fallback,
    ping, SSH, boot diagnostics, then the deferred checks) and of [lisa.py]
    (the run configuration, the marker schema and [validate]).

    Python's effects are made explicit.  A test body is a computation in a
    state-and-exception monad: the state holds the world the node lives in
    and the trace of what the test did (node calls and log records), and a
    computation either returns a value or raises an exception; in both cases
    the state reached so far is kept, as a raised exception does not undo
    the calls and the logging that preceded it. *)

From Stdlib Require Import ZArith String List Lia.
From stdpp Require Import base option list strings gmap.

#[local] Set Warnings "-register-all".

Local Open Scope Z_scope.

(** ** The smoke test *)

Module Smoke.

(** The exceptions the scenario can meet.  The first three are the members
    of the tuple [ssh_errors]; [OtherError] stands for an exception of any
    class that is not one of them (nor a subclass). *)
Inductive exn :=
| TimeoutError (msg : string)
| SSHException (msg : string)
| SocketError (msg : string)
| AssertionError (msg : string)
| UnboundLocalError (var : string)
| OtherError (cls msg : string).

(** [ssh_errors = (TimeoutError, SSHException, socket.error)], as the
    predicate an [except ssh_errors] clause applies. *)
Definition ssh_errors (e : exn) : bool :=
  match e with
  | TimeoutError _ | SSHException _ | SocketError _ => true
  | _ => false
  end.

(** [str(e)], as interpolated by the f-strings of the warnings. *)
Definition str (e : exn) : string :=
  match e with
  | TimeoutError m | SSHException m | SocketError m
  | AssertionError m | OtherError _ m => m
  | UnboundLocalError v =>
      "local variable '" +:+ v +:+ "' referenced before assignment"
  end.

(** [invoke.runners.Result], with the attributes the test reads, each
    taken as the node gives it. *)
Record Result := { command : string; exited : Z; ok : bool }.

Inductive level := INFO | WARNING.

Inductive call :=
| ping_call
| run_call (cmd : string)
| sudo_call (cmd : string)
| platform_restart_call
| get_boot_diagnostics_call.

(** What a run leaves behind, in order: the node methods it invoked and
    the records it logged. *)
Inductive event :=
| Called (c : call)
| Logged (l : level) (msg : string).

Inductive res (A : Type) :=
| Returned (a : A)
| Raised (e : exn).
Arguments Returned {A} a.
Arguments Raised {A} e.

Record state (W : Type) := { world : W; trace : list event }.
Arguments world {W} s.
Arguments trace {W} s.

(** The [Node] fixture: each method acts on the world and returns or
    raises.  [ping], [run] and [sudo] take the [warn] flag they are
    called with. *)
Record Node (W : Type) := {
  host : string;
  ping : bool -> W -> res Result * W;
  run : string -> bool -> W -> res Result * W;
  sudo : string -> bool -> W -> res Result * W;
  platform_restart : W -> res unit * W;
  get_boot_diagnostics : W -> res unit * W
}.
Arguments host {W} n.
Arguments ping {W} n.
Arguments run {W} n.
Arguments sudo {W} n.
Arguments platform_restart {W} n.
Arguments get_boot_diagnostics {W} n.

Definition M (W A : Type) : Type := state W -> res A * state W.

Section Monad.
Context {W : Type}.

#[export] Instance M_ret : MRet (M W) :=
  fun A (a : A) s => (Returned a, s).

#[export] Instance M_bind : MBind (M W) :=
  fun A B (k : A -> M W B) (m : M W A) s =>
    match m s with
    | (Returned a, s') => k a s'
    | (Raised e, s') => (Raised e, s')
    end.

Definition raise {A} (e : exn) : M W A := fun s => (Raised e, s).

(** [try: body / except catch as e: handler e / else: orelse]: the
    handler runs only for a caught exception, the [else] branch only
    after the body returned, and neither branch is itself guarded. *)
Definition try_except_else {A B} (body : M W A) (catch : exn -> bool)
    (handler : exn -> M W B) (orelse : A -> M W B) : M W B :=
  fun s =>
    match body s with
    | (Returned a, s') => orelse a s'
    | (Raised e, s') => if catch e then handler e s' else (Raised e, s')
    end.

Definition emit (ev : event) : M W unit :=
  fun s => (Returned tt, {| world := world s; trace := trace s ++ [ev] |}).

Definition logging_info (msg : string) : M W unit := emit (Logged INFO msg).
Definition logging_warning (msg : string) : M W unit :=
  emit (Logged WARNING msg).

(** A node method call: recorded in the trace, then run on the world. *)
Definition invoke {A} (c : call) (f : W -> res A * W) : M W A :=
  fun s =>
    let '(r, w) := f (world s) in
    (r, {| world := w; trace := trace s ++ [Called c] |}).

(** [assert cond, msg]. *)
Definition py_assert (cond : bool) (msg : string) : M W unit :=
  if cond then mret tt else raise (AssertionError msg).

(** Reading a local variable that an earlier [try] may have left
    unassigned. *)
Definition load {A} (name : string) (v : option A) : M W A :=
  match v with
  | Some a => mret a
  | None => raise (UnboundLocalError name)
  end.

Definition when (cond : bool) (m : M W unit) : M W unit :=
  if cond then m else mret tt.

Variable node : Node W.

(** Lines 34-38: the SSH probe before the reboot.  The result is the
    binding of [ssh1] the statement leaves: none if the handler ran. *)
Definition ssh_before_reboot : M W (option Result) :=
  try_except_else
    (logging_info "SSHing before reboot...";;
     invoke (run_call "uptime") (run node "uptime" true))
    ssh_errors
    (fun e =>
       logging_warning ("SSH before reboot failed: '" +:+ str e +:+ "'");;
       mret None)
    (fun ssh1 => mret (Some ssh1)).

(** Lines 40-49: the reboot, over SSH or else through the platform.
    The result is the binding of [reboot]. *)
Definition reboot_step : M W (option Result) :=
  try_except_else
    (logging_info "Rebooting...";;
     invoke (sudo_call "reboot") (sudo node "reboot" true))
    ssh_errors
    (fun e =>
       logging_warning
         ("SSH failed, using platform to reboot: '" +:+ str e +:+ "'");;
       invoke platform_restart_call (platform_restart node);;
       mret None)
    (fun reboot =>
       when (negb (exited reboot =? -1)%Z)
         (logging_warning "While SSH worked, 'reboot' command failed");;
       mret (Some reboot)).

(** Lines 54-58: the SSH probe after the reboot. *)
Definition ssh_after_reboot : M W (option Result) :=
  try_except_else
    (logging_info "SSHing after reboot...";;
     invoke (run_call "uptime") (run node "uptime" true))
    ssh_errors
    (fun e =>
       logging_warning ("SSH after reboot failed: '" +:+ str e +:+ "'");;
       mret None)
    (fun ssh2 => mret (Some ssh2)).

(** Lines 63-68: the checks deferred to the end of the test. *)
Definition final_checks (ping1 : Result) (ssh1 : option Result)
    (ping2 : Result) (ssh2 : option Result) : M W unit :=
  py_assert (ok ping1) ("Pinging " +:+ host node +:+ " before reboot failed");;
  ssh1v ← load "ssh1" ssh1;
  when (negb (ok ssh1v))
    (logging_warning
       ("SSH command '" +:+ command ssh1v +:+ "' before reboot failed"));;
  py_assert (ok ping2) ("Pinging " +:+ host node +:+ " after reboot failed");;
  ssh2v ← load "ssh2" ssh2;
  when (negb (ok ssh2v))
    (logging_warning
       ("SSH command '" +:+ command ssh2v +:+ "' after reboot failed")).

Definition test_smoke : M W unit :=
  logging_info "Pinging before reboot...";;
  ping1 ← invoke ping_call (ping node true);
  ssh1 ← ssh_before_reboot;
  _ ← reboot_step;
  logging_info "Pinging after reboot...";;
  ping2 ← invoke ping_call (ping node true);
  ssh2 ← ssh_after_reboot;
  logging_info "Retrieving boot diagnostics...";;
  invoke get_boot_diagnostics_call (get_boot_diagnostics node);;
  final_checks ping1 ssh1 ping2 ssh2.

End Monad.

(** Observations on a finished run. *)
Definition passed {A} (r : res A) : bool :=
  match r with Returned _ => true | Raised _ => false end.

Definition calls (t : list event) : list call :=
  omap (fun ev => match ev with Called c => Some c | _ => None end) t.

Definition warnings (t : list event) : list string :=
  omap (fun ev => match ev with Logged WARNING m => Some m | _ => None end) t.

Definition infos (t : list event) : list string :=
  omap (fun ev => match ev with Logged INFO m => Some m | _ => None end) t.

Definition start {W} (w : W) : state W := {| world := w; trace := [] |}.

(** The node calls of a complete run, in order, with or without the
    platform fallback, and the INFO records that announce them. *)
Definition stage_calls (fallback : bool) : list call :=
  [ping_call; run_call "uptime"; sudo_call "reboot"] ++
  (if fallback then [platform_restart_call] else []) ++
  [ping_call; run_call "uptime"; get_boot_diagnostics_call].

Definition stage_infos : list string :=
  ["Pinging before reboot..."; "SSHing before reboot..."; "Rebooting...";
   "Pinging after reboot..."; "SSHing after reboot...";
   "Retrieving boot diagnostics..."].

(** What a run may assume of a node method: that it always returns, that
    it raises nothing but exceptions of some kind, or that it always
    returns a result that is [ok]. *)
Definition never_raises {W A} (f : W -> res A * W) : Prop :=
  forall w, exists a w', f w = (Returned a, w').

Definition raises_only {W A} (kind : exn -> bool) (f : W -> res A * W) : Prop :=
  forall w e w', f w = (Raised e, w') -> kind e = true.

Definition succeeds {W} (f : W -> res Result * W) : Prop :=
  forall w, exists r w', f w = (Returned r, w') /\ ok r = true.

End Smoke.

(** ** The marker validation *)

Module Lisa.

(** The Python values a marker argument is made of.  Floats are left out:
    no schema entry mentions one. *)
Inductive pyval :=
| PNone
| PBool (b : bool)
| PInt (n : Z)
| PStr (s : string)
| PList (l : list pyval).

(** Python's [==] on these values; [bool] is a subclass of [int], so
    [True == 1] and [False == 0]. *)
Fixpoint py_eq (a b : pyval) : bool :=
  match a, b with
  | PNone, PNone => true
  | PBool x, PBool y => Bool.eqb x y
  | PInt x, PInt y => (x =? y)%Z
  | PBool x, PInt y | PInt y, PBool x => (Z.b2z x =? y)%Z
  | PStr x, PStr y => String.eqb x y
  | PList x, PList y =>
      (fix all2 (x y : list pyval) : bool :=
         match x, y with
         | [], [] => true
         | a' :: x', b' :: y' => py_eq a' b' && all2 x' y'
         | _, _ => false
         end) x y
  | _, _ => false
  end.

(** The classes the schema names. *)
Inductive pytype := py_str | py_object.

Definition isinstance (d : pyval) (t : pytype) : bool :=
  match t, d with
  | py_object, _ => true
  | py_str, PStr _ => true
  | py_str, _ => false
  end.

(** [lisa_schema] is a [Schema] of the [schema] package, and what
    [lisa_schema.validate] does is that package's [Schema.validate].  It is
    embedded here for the flavours of schema that [lisa_schema] is built
    from: a class (checked with [isinstance]), a comparable (checked with
    [==]), [Or] (the first alternative that validates), a list (every
    element validates against one of the listed schemas) and, at the top,
    a dict with plain and [Optional] keys.  The messages of [SchemaError]
    are not modelled, so the order in which the items of the data are
    visited, which decides only which error is reported first, does not
    matter. *)
Inductive schema :=
| Class (t : pytype)
| Lit (v : pyval)
| Or (alts : list schema)
| ListOf (alts : list schema).

(** A key of a dict schema: plain, or wrapped in [Optional] with or
    without a default.  A callable default such as [list] is represented
    by the value it returns. *)
Inductive skey :=
| Required (s : schema)
| Optional (s : schema) (default : option pyval).

Definition key_schema (k : skey) : schema :=
  match k with Required s | Optional s _ => s end.

Record dict_schema := {
  entries : list (skey * schema);
  ignore_extra_keys : bool
}.

(** [Schema(s).validate(data)] on the non-dict flavours; [None] stands
    for a raised [SchemaError]. *)
Fixpoint validate_value (s : schema) (data : pyval) : option pyval :=
  match s with
  | Class t => if isinstance data t then Some data else None
  | Lit v => if py_eq v data then Some data else None
  | Or alts =>
      (fix first (alts : list schema) : option pyval :=
         match alts with
         | [] => None
         | a :: rest =>
             match validate_value a data with
             | Some v => Some v
             | None => first rest
             end
         end) alts
  | ListOf alts =>
      match data with
      | PList l =>
          PList <$>
            mapM (fun d =>
                    (fix first (alts : list schema) : option pyval :=
                       match alts with
                       | [] => None
                       | a :: rest =>
                           match validate_value a d with
                           | Some v => Some v
                           | None => first rest
                           end
                       end) alts) l
      | _ => None
      end
  end.

(** The order in which the keys of a dict schema are tried: comparables
    first, classes later, an [Optional] just after a plain key of the same
    flavour. *)
Definition priority (s : schema) : Z :=
  match s with
  | Lit _ => 0
  | Or _ => 2
  | Class _ => 3
  | ListOf _ => 5
  end.

Definition dict_key_priority (k : skey) : Z :=
  match k with
  | Required s => 2 * priority s
  | Optional s _ => 2 * priority s + 1
  end.

Fixpoint insert_sorted (e : skey * schema) (l : list (skey * schema))
    : list (skey * schema) :=
  match l with
  | [] => [e]
  | e' :: rest =>
      if (dict_key_priority e'.1 <? dict_key_priority e.1)%Z
      then e' :: insert_sorted e rest
      else e :: l
  end.

(** [sorted(s, key=_dict_key_priority)]: a stable sort. *)
Definition sorted_skeys (l : list (skey * schema)) : list (skey * schema) :=
  foldr insert_sorted [] l.

(** What the inner loop does with one item of the data: the first schema
    key (by position [i] in the sorted list) that accepts the key decides;
    its value schema then accepts the value or the validation fails. *)
Inductive item_result :=
| Unmatched
| Invalid
| Valid (i : nat) (nvalue : pyval).

Fixpoint validate_item (sorted : list (skey * schema)) (i : nat)
    (key : string) (value : pyval) : item_result :=
  match sorted with
  | [] => Unmatched
  | (skey, svalue) :: rest =>
      match validate_value (key_schema skey) (PStr key) with
      | None => validate_item rest (S i) key value
      | Some _ =>
          match validate_value svalue value with
          | None => Invalid
          | Some nvalue => Valid i nvalue
          end
      end
  end.

(** The outer loop over the items of the data, with the validated dict
    [new] and the set [coverage] of schema keys that were matched. *)
Fixpoint validate_items (sorted : list (skey * schema))
    (items : list (string * pyval)) (new : gmap string pyval)
    (coverage : gset nat) : option (gmap string pyval * gset nat) :=
  match items with
  | [] => Some (new, coverage)
  | (key, value) :: rest =>
      match validate_item sorted 0 key value with
      | Invalid => None
      | Unmatched => validate_items sorted rest new coverage
      | Valid i nvalue =>
          validate_items sorted rest (<[key:=nvalue]> new) ({[i]} ∪ coverage)
      end
  end.

Definition is_required (k : skey) : bool :=
  match k with Required _ => true | Optional _ _ => false end.

(** The positions of the plain (non-optional) keys. *)
Fixpoint required (sorted : list (skey * schema)) (i : nat) : gset nat :=
  match sorted with
  | [] => ∅
  | (skey, _) :: rest =>
      (if is_required skey then {[i]} else ∅) ∪ required rest (S i)
  end.

(** Defaults of the optional keys that were not matched. *)
Fixpoint apply_defaults (sorted : list (skey * schema)) (i : nat)
    (coverage : gset nat) (new : gmap string pyval) : gmap string pyval :=
  match sorted with
  | [] => new
  | (Optional (Lit (PStr key)) (Some default), _) :: rest =>
      apply_defaults rest (S i) coverage
        (if decide (i ∈ coverage) then new else <[key:=default]> new)
  | _ :: rest => apply_defaults rest (S i) coverage new
  end.

(** [Schema(d).validate(data)] for a dict schema [d]. *)
Definition validate_dict (d : dict_schema) (data : gmap string pyval)
    : option (gmap string pyval) :=
  let sorted := sorted_skeys (entries d) in
  '(new, coverage) ← validate_items sorted (map_to_list data) ∅ ∅;
  if negb (bool_decide (required sorted 0 ⊆ coverage)) then None
  else if negb (ignore_extra_keys d) && negb (size new =? size data)%nat
       then None
       else Some (apply_defaults sorted 0 coverage new).

(** [config] of lisa.py. *)
Definition config : gmap string (gmap string pyval) :=
  {[ "run" :=
       <["echo" := PBool true]>
       (<["in_stream" := PBool false]>
       (<["command_timeout" := PInt 1200]> ∅)) ]}.

Definition lisa_schema : dict_schema :=
  {| entries :=
       [ (Required (Lit (PStr "platform")), Class py_str);
         (Required (Lit (PStr "category")),
          Or [Lit (PStr "Functional"); Lit (PStr "Performance");
              Lit (PStr "Stress"); Lit (PStr "Community");
              Lit (PStr "Longhaul")]);
         (Required (Lit (PStr "area")), Class py_str);
         (Required (Lit (PStr "priority")),
          Or [Lit (PInt 0); Lit (PInt 1); Lit (PInt 2); Lit (PInt 3)]);
         (Optional (Lit (PStr "features")) (Some (PList [])),
          ListOf [Class py_str]);
         (Optional (Class py_object) None, Class py_object) ];
     ignore_extra_keys := true |}.

Inductive error :=
| AssertionError (msg : string)
| SchemaError.

(** [_pytest.mark.structures.Mark], with the attributes [validate] uses. *)
Record Mark := { args : list pyval; kwargs : gmap string pyval }.

(** [validate(mark)]: what it raises, if anything, and the mark it leaves
    ([mark.kwargs] is updated in place). *)
Definition validate (mark : Mark) : option error * Mark :=
  match args mark with
  | _ :: _ =>
      (Some (AssertionError "LISA marker cannot have positional arguments!"),
       mark)
  | [] =>
      match validate_dict lisa_schema (kwargs mark) with
      | None => (Some SchemaError, mark)
      | Some new => (None, {| args := args mark; kwargs := new ∪ kwargs mark |})
      end
  end.

(** The conditions under which [lisa_schema] accepts a value for each of
    its keys, read off the values themselves. *)
Definition is_str (v : pyval) : bool :=
  match v with PStr _ => true | _ => false end.

Definition is_category (v : pyval) : bool :=
  match v with
  | PStr s =>
      bool_decide
        (s ∈ ["Functional"; "Performance"; "Stress"; "Community"; "Longhaul"])
  | _ => false
  end.

(** Equal, in Python's sense, to one of 0, 1, 2, 3: the booleans are. *)
Definition is_priority (v : pyval) : bool :=
  match v with
  | PInt n => bool_decide (0 <= n <= 3)%Z
  | PBool _ => true
  | _ => false
  end.

Definition is_str_list (v : pyval) : bool :=
  match v with PList l => forallb is_str l | _ => false end.

Definition has (p : pyval -> bool) (o : option pyval) : bool :=
  match o with Some v => p v | None => false end.

(** The four conditions on the mandatory keys. *)
Definition mandatory_ok (data : gmap string pyval) : bool :=
  has is_str (data !! "platform") &&
  has is_category (data !! "category") &&
  has is_str (data !! "area") &&
  has is_priority (data !! "priority").

Definition optional_ok (p : pyval -> bool) (o : option pyval) : bool :=
  match o with Some v => p v | None => true end.

(** The five named keys, where present, hold acceptable values. *)
Definition present_ok (data : gmap string pyval) : bool :=
  optional_ok is_str (data !! "platform") &&
  optional_ok is_category (data !! "category") &&
  optional_ok is_str (data !! "area") &&
  optional_ok is_priority (data !! "priority") &&
  optional_ok is_str_list (data !! "features").

(** The same, with the condition on [features] where it is present. *)
Definition lisa_accepts (data : gmap string pyval) : bool :=
  mandatory_ok data && optional_ok is_str_list (data !! "features").

(** The validated dict of accepted data. *)
Definition with_default_features (data : gmap string pyval)
    : gmap string pyval :=
  match data !! "features" with
  | Some _ => data
  | None => <["features" := PList []]> data
  end.

(** Marker arguments used in the examples. *)
Definition minimal_kwargs : gmap string pyval :=
  <["platform" := PStr "Azure"]>
  (<["category" := PStr "Functional"]>
  (<["area" := PStr "deploy"]>
  (<["priority" := PInt 0]> ∅))).

End Lisa.

(** ** Nodes with a fixed behaviour *)

Module Scenario.
Import Smoke.

(** The result of a command that ran to completion with the given exit
    code: [ok] is [exited == 0], as [invoke] defines it. *)
Definition completed (cmd : string) (code : Z) : Result :=
  {| command := cmd; exited := code; ok := (code =? 0)%Z |}.

(** What each call of the scenario answers. *)
Record script := {
  ping_before : res Result;
  ssh_before : res Result;
  reboot : res Result;
  restart : res unit;
  ping_after : res Result;
  ssh_after : res Result;
  diagnostics : res unit
}.

(** A node that follows a script.  Its world is the number of calls it
    has served, which tells the calls before the reboot from those after
    it. *)
Definition scripted (sc : script) : Node nat :=
  {| host := "10.0.0.4";
     ping := fun _ n =>
       (if Nat.eqb n 0 then ping_before sc else ping_after sc, S n);
     run := fun _ _ n =>
       (if Nat.leb n 1 then ssh_before sc else ssh_after sc, S n);
     sudo := fun _ _ n => (reboot sc, S n);
     platform_restart := fun n => (restart sc, S n);
     get_boot_diagnostics := fun n => (diagnostics sc, S n) |}.

(** Everything works; the reboot drops the connection (exit code -1). *)
Definition healthy : script :=
  {| ping_before := Returned (completed "ping" 0);
     ssh_before := Returned (completed "uptime" 0);
     reboot := Returned (completed "sudo reboot" (-1));
     restart := Returned tt;
     ping_after := Returned (completed "ping" 0);
     ssh_after := Returned (completed "uptime" 0);
     diagnostics := Returned tt |}.

(** The SSH connection times out before the reboot only. *)
Definition ssh_down_before : script :=
  {| ping_before := Returned (completed "ping" 0);
     ssh_before := Raised (TimeoutError "timed out");
     reboot := Returned (completed "sudo reboot" (-1));
     restart := Returned tt;
     ping_after := Returned (completed "ping" 0);
     ssh_after := Returned (completed "uptime" 0);
     diagnostics := Returned tt |}.

(** The reboot over SSH times out and the platform restarts the VM. *)
Definition ssh_reboot_fails : script :=
  {| ping_before := Returned (completed "ping" 0);
     ssh_before := Returned (completed "uptime" 0);
     reboot := Raised (TimeoutError "timed out");
     restart := Returned tt;
     ping_after := Returned (completed "ping" 0);
     ssh_after := Returned (completed "uptime" 0);
     diagnostics := Returned tt |}.

(** The reboot over SSH times out and the platform restart fails too. *)
Definition platform_down : script :=
  {| ping_before := Returned (completed "ping" 0);
     ssh_before := Returned (completed "uptime" 0);
     reboot := Raised (TimeoutError "timed out");
     restart := Raised (OtherError "PlatformError" "restart failed");
     ping_after := Returned (completed "ping" 0);
     ssh_after := Returned (completed "uptime" 0);
     diagnostics := Returned tt |}.

(** The reboot command runs but exits with code 1. *)
Definition reboot_refused : script :=
  {| ping_before := Returned (completed "ping" 0);
     ssh_before := Returned (completed "uptime" 0);
     reboot := Returned (completed "sudo reboot" 1);
     restart := Returned tt;
     ping_after := Returned (completed "ping" 0);
     ssh_after := Returned (completed "uptime" 0);
     diagnostics := Returned tt |}.

(** The VM does not come back: no ping after the reboot, and both SSH
    probes exit with a non-zero code. *)
Definition lost_after_reboot : script :=
  {| ping_before := Returned (completed "ping" 0);
     ssh_before := Returned (completed "uptime" 255);
     reboot := Returned (completed "sudo reboot" (-1));
     restart := Returned tt;
     ping_after := Returned (completed "ping" 1);
     ssh_after := Returned (completed "uptime" 255);
     diagnostics := Returned tt |}.

(** The first ping itself times out. *)
Definition ping_times_out : script :=
  {| ping_before := Raised (TimeoutError "timed out");
     ssh_before := Returned (completed "uptime" 0);
     reboot := Returned (completed "sudo reboot" (-1));
     restart := Returned tt;
     ping_after := Returned (completed "ping" 0);
     ssh_after := Returned (completed "uptime" 0);
     diagnostics := Returned tt |}.

(** The SSH probe before the reboot raises an exception that is not one of
    [ssh_errors]. *)
Definition probe_crashes : script :=
  {| ping_before := Returned (completed "ping" 0);
     ssh_before := Raised (OtherError "ValueError" "bad host key");
     reboot := Returned (completed "sudo reboot" (-1));
     restart := Returned tt;
     ping_after := Returned (completed "ping" 0);
     ssh_after := Returned (completed "uptime" 0);
     diagnostics := Returned tt |}.


(** The SSH connection times out after the reboot only. *)
Definition ssh_down_after : script :=
  {| ping_before := Returned (completed "ping" 0);
     ssh_before := Returned (completed "uptime" 0);
     reboot := Returned (completed "sudo reboot" (-1));
     restart := Returned tt;
     ping_after := Returned (completed "ping" 0);
     ssh_after := Raised (SSHException "no route");
     diagnostics := Returned tt |}.

End Scenario.

(** ** Properties of the smoke test *)

Section SmokeSteps.
Import Smoke.
Context {W : Type} (node : Node W).

Ltac run_monad :=
  unfold ssh_before_reboot, ssh_after_reboot, reboot_step, final_checks,
    try_except_else, logging_info, logging_warning, emit, invoke, when,
    py_assert, load, raise, mbind, M_bind, mret, M_ret; simpl.

Lemma reboot_step_returned (s : state W) (r : Result) (w1 : W) :
  sudo node "reboot" true (world s) = (Returned r, w1) ->
  reboot_step node s =
    (Returned (Some r),
     {| world := w1;
        trace := trace s ++
          [Logged INFO "Rebooting..."; Called (sudo_call "reboot")] ++
          (if (exited r =? -1)%Z then []
           else [Logged WARNING "While SSH worked, 'reboot' command failed"])
     |}).
Proof.
  intros Hsudo. run_monad. rewrite Hsudo. simpl.
  destruct (exited r =? -1)%Z; simpl;
    rewrite <- ?app_assoc; simpl; reflexivity.
Qed.

Lemma reboot_step_caught (s : state W) (e : exn) (w1 : W) :
  sudo node "reboot" true (world s) = (Raised e, w1) ->
  ssh_errors e = true ->
  reboot_step node s =
    let '(r, w2) := platform_restart node w1 in
    (match r with Returned _ => Returned None | Raised e' => Raised e' end,
     {| world := w2;
        trace := trace s ++
          [Logged INFO "Rebooting..."; Called (sudo_call "reboot");
           Logged WARNING
             ("SSH failed, using platform to reboot: '" +:+ str e +:+ "'");
           Called platform_restart_call] |}).
Proof.
  intros Hsudo He. run_monad. rewrite Hsudo, He. simpl.
  destruct (platform_restart node w1) as [[[]|e'] w2]; simpl;
    rewrite <- ?app_assoc; simpl; reflexivity.
Qed.

Lemma reboot_step_uncaught (s : state W) (e : exn) (w1 : W) :
  sudo node "reboot" true (world s) = (Raised e, w1) ->
  ssh_errors e = false ->
  reboot_step node s =
    (Raised e,
     {| world := w1;
        trace := trace s ++
          [Logged INFO "Rebooting..."; Called (sudo_call "reboot")] |}).
Proof.
  intros Hsudo He. run_monad. rewrite Hsudo, He. simpl.
  rewrite <- ?app_assoc; simpl; reflexivity.
Qed.

Lemma ssh_before_reboot_returned (s : state W) (r : Result) (w1 : W) :
  run node "uptime" true (world s) = (Returned r, w1) ->
  ssh_before_reboot node s =
    (Returned (Some r),
     {| world := w1;
        trace := trace s ++
          [Logged INFO "SSHing before reboot..."; Called (run_call "uptime")]
     |}).
Proof.
  intros Hrun. run_monad. rewrite Hrun. simpl.
  rewrite <- ?app_assoc; simpl; reflexivity.
Qed.

Lemma ssh_before_reboot_caught (s : state W) (e : exn) (w1 : W) :
  run node "uptime" true (world s) = (Raised e, w1) ->
  ssh_errors e = true ->
  ssh_before_reboot node s =
    (Returned None,
     {| world := w1;
        trace := trace s ++
          [Logged INFO "SSHing before reboot..."; Called (run_call "uptime");
           Logged WARNING ("SSH before reboot failed: '" +:+ str e +:+ "'")]
     |}).
Proof.
  intros Hrun He. run_monad. rewrite Hrun, He. simpl.
  rewrite <- ?app_assoc; simpl; reflexivity.
Qed.

Lemma ssh_before_reboot_uncaught (s : state W) (e : exn) (w1 : W) :
  run node "uptime" true (world s) = (Raised e, w1) ->
  ssh_errors e = false ->
  ssh_before_reboot node s =
    (Raised e,
     {| world := w1;
        trace := trace s ++
          [Logged INFO "SSHing before reboot..."; Called (run_call "uptime")]
     |}).
Proof.
  intros Hrun He. run_monad. rewrite Hrun, He. simpl.
  rewrite <- ?app_assoc; simpl; reflexivity.
Qed.

Lemma ssh_after_reboot_returned (s : state W) (r : Result) (w1 : W) :
  run node "uptime" true (world s) = (Returned r, w1) ->
  ssh_after_reboot node s =
    (Returned (Some r),
     {| world := w1;
        trace := trace s ++
          [Logged INFO "SSHing after reboot..."; Called (run_call "uptime")]
     |}).
Proof.
  intros Hrun. run_monad. rewrite Hrun. simpl.
  rewrite <- ?app_assoc; simpl; reflexivity.
Qed.

Lemma ssh_after_reboot_caught (s : state W) (e : exn) (w1 : W) :
  run node "uptime" true (world s) = (Raised e, w1) ->
  ssh_errors e = true ->
  ssh_after_reboot node s =
    (Returned None,
     {| world := w1;
        trace := trace s ++
          [Logged INFO "SSHing after reboot..."; Called (run_call "uptime");
           Logged WARNING ("SSH after reboot failed: '" +:+ str e +:+ "'")]
     |}).
Proof.
  intros Hrun He. run_monad. rewrite Hrun, He. simpl.
  rewrite <- ?app_assoc; simpl; reflexivity.
Qed.

(** The deferred checks when both SSH probes left a result: the verdict
    is that of the two pings, and the warning about a probe is logged only
    if the assertions before it passed. *)
Lemma final_checks_bound (p1 r1 p2 r2 : Result) (s : state W) :
  final_checks node p1 (Some r1) p2 (Some r2) s =
    (if ok p1
     then if ok p2 then Returned tt
          else Raised (AssertionError
                 ("Pinging " +:+ host node +:+ " after reboot failed"))
     else Raised (AssertionError
            ("Pinging " +:+ host node +:+ " before reboot failed")),
     {| world := world s;
        trace := trace s ++
          (if ok p1
           then (if ok r1 then []
                 else [Logged WARNING
                         ("SSH command '" +:+ command r1 +:+
                          "' before reboot failed")]) ++
                (if ok p2
                 then if ok r2 then []
                      else [Logged WARNING
                              ("SSH command '" +:+ command r2 +:+
                               "' after reboot failed")]
                 else [])
           else []) |}).
Proof.
  run_monad. destruct s as [w t]; simpl.
  destruct (ok p1), (ok r1), (ok p2), (ok r2); simpl;
    rewrite <- ?app_assoc, ?app_nil_r; reflexivity.
Qed.

(** The deferred checks never touch the node, log nothing at level INFO,
    and leave the world as it is. *)
Lemma final_checks_quiet (p1 p2 : Result) (o1 o2 : option Result)
    (s : state W) :
  exists t,
    (final_checks node p1 o1 p2 o2 s).2 =
      {| world := world s; trace := trace s ++ t |} /\
    calls t = [] /\ infos t = [].
Proof.
  run_monad. destruct s as [w t0]; simpl.
  destruct (ok p1); simpl; [|exists []; rewrite app_nil_r; done].
  destruct o1 as [r1|]; simpl; [|exists []; rewrite app_nil_r; done].
  destruct (ok r1), (ok p2); simpl;
    try (destruct o2 as [r2|]; simpl; try destruct (ok r2); simpl);
    rewrite <- ?app_assoc; simpl;
    first [ by exists []; rewrite app_nil_r | by eexists ].
Qed.

End SmokeSteps.

Section Observations.
Import Smoke.

Lemma calls_app (t1 t2 : list event) : calls (t1 ++ t2) = calls t1 ++ calls t2.
Proof. apply omap_app. Qed.

Lemma calls_called (c : call) (t : list event) :
  calls (Called c :: t) = c :: calls t.
Proof. reflexivity. Qed.

Lemma calls_logged (l : level) (m : string) (t : list event) :
  calls (Logged l m :: t) = calls t.
Proof. reflexivity. Qed.

Lemma infos_app (t1 t2 : list event) : infos (t1 ++ t2) = infos t1 ++ infos t2.
Proof. apply omap_app. Qed.

Lemma infos_called (c : call) (t : list event) :
  infos (Called c :: t) = infos t.
Proof. reflexivity. Qed.

Lemma infos_info (m : string) (t : list event) :
  infos (Logged INFO m :: t) = m :: infos t.
Proof. reflexivity. Qed.

Lemma warnings_app (t1 t2 : list event) :
  warnings (t1 ++ t2) = warnings t1 ++ warnings t2.
Proof. apply omap_app. Qed.

End Observations.

Create Rewrite HintDb observe.
#[local] Hint Rewrite calls_app calls_called calls_logged
  infos_app infos_called infos_info : observe.

Section SmokeRun.
Import Smoke.
Context {W : Type} (node : Node W).

Ltac trace_norm :=
  unfold calls, infos, warnings; simpl;
  rewrite ?omap_app; simpl; rewrite <- ?app_assoc; simpl.

(** C2.  When the reboot over SSH raises one of [ssh_errors] and the
    platform restart then returns, the reboot step returns normally: the
    SSH fault is logged as a warning and does not escape, the platform
    restart is invoked (once, after the SSH attempt), and the state is the
    one the platform restart left. *)
Theorem reboot_falls_back_to_platform (s : state W) (e : exn) (w1 w2 : W) :
  sudo node "reboot" true (world s) = (Raised e, w1) ->
  ssh_errors e = true ->
  platform_restart node w1 = (Returned tt, w2) ->
  reboot_step node s =
    (Returned None,
     {| world := w2;
        trace := trace s ++
          [Logged INFO "Rebooting..."; Called (sudo_call "reboot");
           Logged WARNING
             ("SSH failed, using platform to reboot: '" +:+ str e +:+ "'");
           Called platform_restart_call] |}).
Proof.
  intros Hsudo He Hrestart.
  rewrite (reboot_step_caught node s e w1 Hsudo He), Hrestart.
  reflexivity.
Qed.

(** C3 (amended).  The reboot step raises exactly in two cases: the reboot
    over SSH raised an exception outside [ssh_errors], which propagates
    unchanged; or it raised one of [ssh_errors], which is caught, and the
    platform restart then raised, which propagates unchanged.  So only the
    [ssh_errors] of the first strategy are absorbed at this boundary. *)
Theorem reboot_step_raises_iff (s : state W) (e : exn) :
  (reboot_step node s).1 = Raised e <->
    (exists w1, sudo node "reboot" true (world s) = (Raised e, w1) /\
                ssh_errors e = false) \/
    (exists e1 w1 w2, sudo node "reboot" true (world s) = (Raised e1, w1) /\
                      ssh_errors e1 = true /\
                      platform_restart node w1 = (Raised e, w2)).
Proof.
  destruct (sudo node "reboot" true (world s)) as [[r|e1] w1] eqn:Hsudo.
  - rewrite (reboot_step_returned node s r w1 Hsudo); simpl.
    split; [discriminate|].
    intros [(w & Hw & _)|(e' & w & w' & Hw & _)]; discriminate.
  - destruct (ssh_errors e1) eqn:He1.
    + rewrite (reboot_step_caught node s e1 w1 Hsudo He1).
      destruct (platform_restart node w1) as [[[]|e2] w2] eqn:Hr; simpl.
      * split; [discriminate|].
        intros [(w & Hw & He)|(e' & w & w' & Hw & _ & Hp)].
        -- congruence.
        -- injection Hw as <- <-. rewrite Hr in Hp. discriminate.
      * split.
        -- intros [= <-]. right. by exists e1, w1, w2.
        -- intros [(w & Hw & He)|(e' & w & w' & Hw & _ & Hp)].
           ++ congruence.
           ++ injection Hw as <- <-. rewrite Hr in Hp. congruence.
    + rewrite (reboot_step_uncaught node s e1 w1 Hsudo He1); simpl.
      split.
      * intros [= <-]. left. by exists w1.
      * intros [(w & Hw & He)|(e' & w & w' & Hw & He & _)]; congruence.
Qed.

(** C4.  A reboot command that ran to completion ends the reboot step,
    whatever its exit code: the step returns that result, the only node
    call it made is the [sudo], and the platform restart is not invoked;
    an exit code other than -1 costs a warning and nothing else. *)
Theorem reboot_result_ends_escalation (s : state W) (r : Result) (w1 : W) :
  sudo node "reboot" true (world s) = (Returned r, w1) ->
  (reboot_step node s).1 = Returned (Some r) /\
  world (reboot_step node s).2 = w1 /\
  calls (trace (reboot_step node s).2) =
    calls (trace s) ++ [sudo_call "reboot"] /\
  warnings (trace (reboot_step node s).2) =
    warnings (trace s) ++
    (if (exited r =? -1)%Z then []
     else ["While SSH worked, 'reboot' command failed"]) /\
  (forall t, trace (reboot_step node s).2 = trace s ++ t ->
             ~ In (Called platform_restart_call) t).
Proof.
  intros Hsudo. rewrite (reboot_step_returned node s r w1 Hsudo); simpl.
  split; [done|]. split; [done|]. split; [|split].
  - destruct (exited r =? -1)%Z; trace_norm; reflexivity.
  - destruct (exited r =? -1)%Z; trace_norm; reflexivity.
  - intros t Ht. apply app_inv_head in Ht. subst t.
    destruct (exited r =? -1)%Z; simpl; intros H;
      repeat (destruct H as [H|H]; [discriminate|]); exact H.
Qed.

(** C5.  For a reboot command that ran to completion, the reboot step
    logs its warning if and only if the exit code is not -1; with exit
    code -1, and with no other, the warnings are left as they were. *)
Theorem reboot_warns_iff_exit_not_minus_one (s : state W) (r : Result)
    (w1 : W) :
  sudo node "reboot" true (world s) = (Returned r, w1) ->
  (warnings (trace (reboot_step node s).2) =
     warnings (trace s) ++ ["While SSH worked, 'reboot' command failed"]
   <-> exited r <> (-1)%Z) /\
  (warnings (trace (reboot_step node s).2) = warnings (trace s)
   <-> exited r = (-1)%Z).
Proof.
  intros Hsudo. rewrite (reboot_step_returned node s r w1 Hsudo); simpl.
  destruct (Z.eqb_spec (exited r) (-1)) as [Heq|Hne]; trace_norm.
  - rewrite app_nil_r. split; split; try done.
    intros H. apply (f_equal length) in H. rewrite length_app in H.
    simpl in H. lia.
  - split; split; try done.
    intros H. apply (f_equal length) in H. rewrite length_app in H.
    simpl in H. lia.
Qed.

(** What each guarded block adds to the trace when the node raises, from
    its shell methods, nothing but [ssh_errors]. *)
Lemma ssh_before_reboot_summary (s : state W) :
  raises_only ssh_errors (run node "uptime" true) ->
  exists o w t,
    ssh_before_reboot node s =
      (Returned o, {| world := w; trace := trace s ++ t |}) /\
    calls t = [run_call "uptime"] /\ infos t = ["SSHing before reboot..."].
Proof.
  intros Hrun.
  destruct (run node "uptime" true (world s)) as [[r|e] w] eqn:E.
  - rewrite (ssh_before_reboot_returned node s r w E). by eexists _, _, _.
  - rewrite (ssh_before_reboot_caught node s e w E (Hrun _ _ _ E)).
    by eexists _, _, _.
Qed.

Lemma ssh_after_reboot_summary (s : state W) :
  raises_only ssh_errors (run node "uptime" true) ->
  exists o w t,
    ssh_after_reboot node s =
      (Returned o, {| world := w; trace := trace s ++ t |}) /\
    calls t = [run_call "uptime"] /\ infos t = ["SSHing after reboot..."].
Proof.
  intros Hrun.
  destruct (run node "uptime" true (world s)) as [[r|e] w] eqn:E.
  - rewrite (ssh_after_reboot_returned node s r w E). by eexists _, _, _.
  - rewrite (ssh_after_reboot_caught node s e w E (Hrun _ _ _ E)).
    by eexists _, _, _.
Qed.

Lemma reboot_step_summary (s : state W) :
  raises_only ssh_errors (sudo node "reboot" true) ->
  never_raises (platform_restart node) ->
  exists o w t (fallback : bool),
    reboot_step node s =
      (Returned o, {| world := w; trace := trace s ++ t |}) /\
    calls t =
      sudo_call "reboot" :: (if fallback then [platform_restart_call] else [])
    /\ infos t = ["Rebooting..."].
Proof.
  intros Hsudo Hrestart.
  destruct (sudo node "reboot" true (world s)) as [[r|e] w] eqn:E.
  - rewrite (reboot_step_returned node s r w E).
    eexists _, _, _, false. split; [reflexivity|].
    by destruct (exited r =? -1)%Z.
  - rewrite (reboot_step_caught node s e w E (Hsudo _ _ _ E)).
    destruct (Hrestart w) as ([] & w2 & ->).
    by eexists _, _, _, true.
Qed.

(** The calls and the INFO records of a whole run, under the same
    assumptions and with a ping that always returns. *)
Lemma test_smoke_stages (s : state W) :
  never_raises (ping node true) ->
  raises_only ssh_errors (run node "uptime" true) ->
  raises_only ssh_errors (sudo node "reboot" true) ->
  never_raises (platform_restart node) ->
  exists (t : list event) (fallback : bool),
    trace (test_smoke node s).2 = trace s ++ t /\
    calls t =
      [ping_call; run_call "uptime"; sudo_call "reboot"] ++
      (if fallback then [platform_restart_call] else []) ++
      [ping_call; run_call "uptime"; get_boot_diagnostics_call] /\
    infos t =
      ["Pinging before reboot..."; "SSHing before reboot..."; "Rebooting...";
       "Pinging after reboot..."; "SSHing after reboot...";
       "Retrieving boot diagnostics..."].
Proof.
  intros Hping Hrun Hsudo Hrestart.
  unfold test_smoke, mbind, M_bind, logging_info, emit, invoke; simpl.
  destruct (Hping (world s)) as (p1 & w1 & ->).
  match goal with |- context [ssh_before_reboot node ?st] =>
    destruct (ssh_before_reboot_summary st Hrun)
      as (o1 & w2 & t1 & -> & Hc1 & Hi1) end.
  match goal with |- context [reboot_step node ?st] =>
    destruct (reboot_step_summary st Hsudo Hrestart)
      as (rb & w3 & t2 & fallback & -> & Hc2 & Hi2) end.
  simpl. destruct (Hping w3) as (p2 & w4 & ->).
  match goal with |- context [ssh_after_reboot node ?st] =>
    destruct (ssh_after_reboot_summary st Hrun)
      as (o2 & w5 & t3 & -> & Hc3 & Hi3) end.
  simpl.
  destruct (get_boot_diagnostics node w5) as [[[]|e] w6]; simpl.
  - match goal with |- context [final_checks node _ _ _ _ ?st] =>
      destruct (final_checks_quiet node p1 p2 o1 o2 st)
        as (t4 & -> & Hc4 & Hi4) end.
    simpl. eexists _, fallback. rewrite <- !app_assoc. simpl.
    split; [reflexivity|].
    autorewrite with observe. rewrite Hc1, Hc2, Hc3, Hc4, Hi1, Hi2, Hi3, Hi4.
    simpl. rewrite <- ?app_assoc. done.
  - eexists _, fallback. rewrite <- !app_assoc. simpl.
    split; [reflexivity|].
    autorewrite with observe. rewrite Hc1, Hc2, Hc3, Hi1, Hi2, Hi3.
    simpl. rewrite <- ?app_assoc. done.
Qed.

Lemma succeeds_never_raises (f : W -> res Result * W) :
  succeeds f -> never_raises f.
Proof. intros H w. destruct (H w) as (r & w' & E & _). eauto. Qed.

Lemma never_raises_raises_only {A} (kind : exn -> bool) (f : W -> res A * W) :
  never_raises f -> raises_only kind f.
Proof. intros H w e w' E. destruct (H w) as (a & w2 & E2). congruence. Qed.

(** A run in which every probe succeeds passes. *)
Lemma test_smoke_passes (s : state W) :
  succeeds (ping node true) ->
  succeeds (run node "uptime" true) ->
  raises_only ssh_errors (sudo node "reboot" true) ->
  never_raises (platform_restart node) ->
  never_raises (get_boot_diagnostics node) ->
  (test_smoke node s).1 = Returned tt.
Proof.
  intros Hping Hrun Hsudo Hrestart Hdiag.
  unfold test_smoke, mbind, M_bind, logging_info, emit, invoke; simpl.
  destruct (Hping (world s)) as (p1 & w1 & -> & Hp1).
  destruct (Hrun w1) as (r1 & w2 & E1 & Hr1).
  match goal with |- context [ssh_before_reboot node ?st] =>
    rewrite (ssh_before_reboot_returned node st r1 w2 E1) end.
  match goal with |- context [reboot_step node ?st] =>
    destruct (reboot_step_summary st Hsudo Hrestart)
      as (rb & w3 & t2 & fallback & -> & _ & _) end.
  simpl. destruct (Hping w3) as (p2 & w4 & -> & Hp2).
  destruct (Hrun w4) as (r2 & w5 & E2 & Hr2).
  match goal with |- context [ssh_after_reboot node ?st] =>
    rewrite (ssh_after_reboot_returned node st r2 w5 E2) end. simpl.
  destruct (Hdiag w5) as ([] & w6 & ->).
  rewrite final_checks_bound, Hp1, Hp2. reflexivity.
Qed.

(** C6 (amended).  Provided no exception escapes a stage (the pings and
    the platform restart always return, and the shell commands raise
    nothing but [ssh_errors]), a run makes its node calls once each and in
    the order pre-check (ping, uptime), action (reboot, with the platform
    restart after it if the fallback was taken), post-check (ping, uptime),
    diagnostics, and logs the six INFO records of these calls in that
    order, whatever results the calls gave; if moreover every ping and
    every uptime succeeds and the diagnostics are fetched, the run
    passes. *)
Theorem stages_run_once_in_order (s : state W) :
  never_raises (ping node true) ->
  raises_only ssh_errors (run node "uptime" true) ->
  raises_only ssh_errors (sudo node "reboot" true) ->
  never_raises (platform_restart node) ->
  (exists (t : list event) (fallback : bool),
     trace (test_smoke node s).2 = trace s ++ t /\
     calls t =
       [ping_call; run_call "uptime"; sudo_call "reboot"] ++
       (if fallback then [platform_restart_call] else []) ++
       [ping_call; run_call "uptime"; get_boot_diagnostics_call] /\
     infos t =
       ["Pinging before reboot..."; "SSHing before reboot...";
        "Rebooting..."; "Pinging after reboot..."; "SSHing after reboot...";
        "Retrieving boot diagnostics..."]) /\
  (succeeds (ping node true) ->
   succeeds (run node "uptime" true) ->
   never_raises (get_boot_diagnostics node) ->
   (test_smoke node s).1 = Returned tt).
Proof.
  intros Hping Hrun Hsudo Hrestart. split.
  - by apply test_smoke_stages.
  - intros Hping' Hrun' Hdiag. by apply test_smoke_passes.
Qed.

(** In a run in which every call of the node returns (both pings, both
    SSH probes and the diagnostics; the reboot step by either strategy),
    the test passes if and only if both pings are [ok], and a probe that
    exited with a failure is logged as a warning by the deferred checks
    only when the assertions placed before its check passed. *)
Lemma verdict_when_probes_return (s s3 : state W) (p1 r1 p2 r2 : Result)
    (rb : option Result) (w1 w2 w4 w5 w6 : W) :
  ping node true (world s) = (Returned p1, w1) ->
  run node "uptime" true w1 = (Returned r1, w2) ->
  reboot_step node
    {| world := w2;
       trace := trace s ++
         [Logged INFO "Pinging before reboot..."; Called ping_call;
          Logged INFO "SSHing before reboot..."; Called (run_call "uptime")]
    |} = (Returned rb, s3) ->
  ping node true (world s3) = (Returned p2, w4) ->
  run node "uptime" true w4 = (Returned r2, w5) ->
  get_boot_diagnostics node w5 = (Returned tt, w6) ->
  passed (test_smoke node s).1 = ok p1 && ok p2 /\
  warnings (trace (test_smoke node s).2) =
    warnings (trace s3) ++
    (if ok p1
     then (if ok r1 then []
           else ["SSH command '" +:+ command r1 +:+ "' before reboot failed"])
          ++
          (if ok p2
           then if ok r2 then []
                else ["SSH command '" +:+ command r2 +:+
                      "' after reboot failed"]
           else [])
     else []).
Proof.
  intros E1 E2 E3 E4 E5 E6.
  unfold test_smoke, mbind, M_bind, logging_info, emit, invoke; simpl.
  rewrite E1.
  match goal with |- context [ssh_before_reboot node ?st] =>
    rewrite (ssh_before_reboot_returned node st r1 w2 E2) end. simpl.
  rewrite <- !app_assoc. simpl. rewrite E3. simpl. rewrite E4.
  match goal with |- context [ssh_after_reboot node ?st] =>
    rewrite (ssh_after_reboot_returned node st r2 w5 E5) end. simpl.
  rewrite E6, final_checks_bound. simpl. split.
  - by destruct (ok p1), (ok p2).
  - rewrite <- !app_assoc, !warnings_app. simpl.
    destruct (ok p1), (ok r1), (ok p2), (ok r2); reflexivity.
Qed.

(** C8.  The reboot step keeps nothing between invocations: if the two
    strategies are deterministic, in that what [sudo] and
    [platform_restart] answer does not depend on the world they are called
    in, then the step gives the same outcome and adds the same events to
    the trace from any two states; in particular when it is run a second
    time from the state the first run left. *)
Theorem reboot_step_repeatable (s s' : state W) :
  (forall w w', (sudo node "reboot" true w).1 = (sudo node "reboot" true w').1) ->
  (forall w w', (platform_restart node w).1 = (platform_restart node w').1) ->
  (reboot_step node s).1 = (reboot_step node s').1 /\
  (reboot_step node (reboot_step node s).2).1 = (reboot_step node s).1 /\
  exists t,
    trace (reboot_step node s).2 = trace s ++ t /\
    trace (reboot_step node s').2 = trace s' ++ t.
Proof.
  intros Hsudo Hrestart.
  assert (Hany : forall a b,
    (reboot_step node a).1 = (reboot_step node b).1 /\
    exists t, trace (reboot_step node a).2 = trace a ++ t /\
              trace (reboot_step node b).2 = trace b ++ t).
  { intros a b. pose proof (Hsudo (world a) (world b)) as Hs.
    destruct (sudo node "reboot" true (world a)) as [[r|e] wa] eqn:Ea;
      destruct (sudo node "reboot" true (world b)) as [[r'|e'] wb] eqn:Eb;
      simpl in Hs; try discriminate; injection Hs as <-.
    - rewrite (reboot_step_returned node a r wa Ea),
        (reboot_step_returned node b r wb Eb). simpl. eauto.
    - destruct (ssh_errors e) eqn:He.
      + rewrite (reboot_step_caught node a e wa Ea He),
          (reboot_step_caught node b e wb Eb He).
        pose proof (Hrestart wa wb) as Hr.
        destruct (platform_restart node wa) as [[[]|ea] wa'];
          destruct (platform_restart node wb) as [[[]|eb] wb'];
          simpl in Hr; try discriminate; simpl; [eauto|].
        injection Hr as <-. eauto.
      + rewrite (reboot_step_uncaught node a e wa Ea He),
          (reboot_step_uncaught node b e wb Eb He). simpl. eauto. }
  split; [apply Hany|]. split; [apply Hany|].
  destruct (Hany s s') as [_ Ht]. exact Ht.
Qed.

End SmokeRun.

(** ** The scenarios, run *)

Section ScenarioRuns.
Import Smoke Scenario.

Lemma healthy_ping_succeeds : succeeds (ping (scripted healthy) true).
Proof. intros n. simpl. destruct (Nat.eqb n 0); eauto. Qed.

Lemma healthy_run_succeeds : succeeds (run (scripted healthy) "uptime" true).
Proof. intros n. simpl. destruct (Nat.leb n 1); eauto. Qed.

Lemma healthy_sudo_returns : never_raises (sudo (scripted healthy) "reboot" true).
Proof. intros n. simpl. eauto. Qed.

Lemma healthy_restart_returns :
  never_raises (platform_restart (scripted healthy)).
Proof. intros n. simpl. eauto. Qed.

Lemma healthy_diagnostics_return :
  never_raises (get_boot_diagnostics (scripted healthy)).
Proof. intros n. simpl. eauto. Qed.

(** The defect the amended C1 leaves aside: an SSH probe that raises one
    of [ssh_errors] is logged and caught, but leaves [ssh1] unassigned, and
    the deferred check of [ssh1.ok] then raises; the test fails although
    both pings are [ok]. *)
Lemma ssh_fault_before_reboot_fails_the_test :
  test_smoke (scripted ssh_down_before) (start 0%nat) =
    (Raised (UnboundLocalError "ssh1"),
     {| world := 6%nat;
        trace :=
          [Logged INFO "Pinging before reboot..."; Called ping_call;
           Logged INFO "SSHing before reboot..."; Called (run_call "uptime");
           Logged WARNING "SSH before reboot failed: 'timed out'";
           Logged INFO "Rebooting..."; Called (sudo_call "reboot");
           Logged INFO "Pinging after reboot..."; Called ping_call;
           Logged INFO "SSHing after reboot..."; Called (run_call "uptime");
           Logged INFO "Retrieving boot diagnostics...";
           Called get_boot_diagnostics_call] |}).
Proof. vm_compute. reflexivity. Qed.

(** C1, as stated, fails: with pings answering (ok, not ok) and both SSH
    probes exiting with a failure, the run fails on the second ping with a
    single warning, since the assertion on the second ping precedes the
    check of the second probe. *)
Lemma lost_after_reboot_one_warning :
  passed (test_smoke (scripted lost_after_reboot) (start 0%nat)).1 = false /\
  warnings (trace (test_smoke (scripted lost_after_reboot) (start 0%nat)).2) =
    ["SSH command 'uptime' before reboot failed"] /\
  length
    (warnings (trace (test_smoke (scripted lost_after_reboot) (start 0%nat)).2))
    <> 2%nat.
Proof. vm_compute. repeat split. discriminate. Qed.

Lemma reboot_falls_back_to_platform_witness :
  reboot_step (scripted ssh_reboot_fails) (start 2%nat) =
    (Returned None,
     {| world := 4%nat;
        trace :=
          [Logged INFO "Rebooting..."; Called (sudo_call "reboot");
           Logged WARNING "SSH failed, using platform to reboot: 'timed out'";
           Called platform_restart_call] |}).
Proof.
  apply (reboot_falls_back_to_platform (scripted ssh_reboot_fails)
           (start 2%nat) (TimeoutError "timed out") 3%nat 4%nat);
    reflexivity.
Defined.

(** C3, as stated, fails: a fault of the platform restart is not turned
    into a result, it leaves the reboot step, and the test, as raised. *)
Lemma platform_fault_escapes_reboot_step :
  (reboot_step (scripted platform_down) (start 2%nat)).1 =
    Raised (OtherError "PlatformError" "restart failed") /\
  (test_smoke (scripted platform_down) (start 0%nat)).1 =
    Raised (OtherError "PlatformError" "restart failed").
Proof. vm_compute. split; reflexivity. Qed.

Lemma reboot_result_ends_escalation_witness :
  (reboot_step (scripted reboot_refused) (start 2%nat)).1 =
    Returned (Some (completed "sudo reboot" 1)) /\
  world (reboot_step (scripted reboot_refused) (start 2%nat)).2 = 3%nat /\
  calls (trace (reboot_step (scripted reboot_refused) (start 2%nat)).2) =
    calls (trace (start 2%nat)) ++ [sudo_call "reboot"] /\
  warnings (trace (reboot_step (scripted reboot_refused) (start 2%nat)).2) =
    ["While SSH worked, 'reboot' command failed"] /\
  (forall t,
     trace (reboot_step (scripted reboot_refused) (start 2%nat)).2 =
       trace (start 2%nat) ++ t ->
     ~ In (Called platform_restart_call) t).
Proof.
  apply (reboot_result_ends_escalation (scripted reboot_refused)
           (start 2%nat) (completed "sudo reboot" 1) 3%nat).
  reflexivity.
Defined.

Lemma reboot_warns_iff_exit_not_minus_one_witness :
  (warnings (trace (reboot_step (scripted reboot_refused) (start 2%nat)).2) =
     warnings (trace (start 2%nat)) ++
     ["While SSH worked, 'reboot' command failed"]
   <-> exited (completed "sudo reboot" 1) <> (-1)%Z) /\
  (warnings (trace (reboot_step (scripted reboot_refused) (start 2%nat)).2) =
     warnings (trace (start 2%nat))
   <-> exited (completed "sudo reboot" 1) = (-1)%Z).
Proof.
  apply (reboot_warns_iff_exit_not_minus_one (scripted reboot_refused)
           (start 2%nat) (completed "sudo reboot" 1) 3%nat).
  reflexivity.
Defined.

(** C6, as stated, fails: when the reboot over SSH times out and the
    platform restart raises, the run stops there; the post-check and the
    diagnostics are never reached. *)
Lemma platform_down_skips_stages :
  calls (trace (test_smoke (scripted platform_down) (start 0%nat)).2) =
    [ping_call; run_call "uptime"; sudo_call "reboot"; platform_restart_call]
  /\
  ~ In get_boot_diagnostics_call
      (calls (trace (test_smoke (scripted platform_down) (start 0%nat)).2)).
Proof.
  vm_compute. split; [reflexivity|].
  intros H. repeat (destruct H as [H|H]; [discriminate|]). exact H.
Qed.

Lemma stages_run_once_in_order_witness :
  (exists (t : list event) (fallback : bool),
     trace (test_smoke (scripted healthy) (start 0%nat)).2 =
       trace (start 0%nat) ++ t /\
     calls t =
       [ping_call; run_call "uptime"; sudo_call "reboot"] ++
       (if fallback then [platform_restart_call] else []) ++
       [ping_call; run_call "uptime"; get_boot_diagnostics_call] /\
     infos t =
       ["Pinging before reboot..."; "SSHing before reboot...";
        "Rebooting..."; "Pinging after reboot..."; "SSHing after reboot...";
        "Retrieving boot diagnostics..."]) /\
  (test_smoke (scripted healthy) (start 0%nat)).1 = Returned tt.
Proof.
  destruct (stages_run_once_in_order (scripted healthy) (start 0%nat))
    as [Hstages Hpass].
  - exact (succeeds_never_raises _ healthy_ping_succeeds).
  - exact (never_raises_raises_only _ _
             (succeeds_never_raises _ healthy_run_succeeds)).
  - exact (never_raises_raises_only _ _ healthy_sudo_returns).
  - exact healthy_restart_returns.
  - split; [exact Hstages|].
    exact (Hpass healthy_ping_succeeds healthy_run_succeeds
             healthy_diagnostics_return).
Defined.

Lemma reboot_step_repeatable_witness :
  (reboot_step (scripted ssh_reboot_fails) (start 2%nat)).1 =
    (reboot_step (scripted ssh_reboot_fails) (start 7%nat)).1 /\
  (reboot_step (scripted ssh_reboot_fails)
     (reboot_step (scripted ssh_reboot_fails) (start 2%nat)).2).1 =
    (reboot_step (scripted ssh_reboot_fails) (start 2%nat)).1 /\
  exists t,
    trace (reboot_step (scripted ssh_reboot_fails) (start 2%nat)).2 =
      trace (start 2%nat) ++ t /\
    trace (reboot_step (scripted ssh_reboot_fails) (start 7%nat)).2 =
      trace (start 7%nat) ++ t.
Proof.
  apply (reboot_step_repeatable (scripted ssh_reboot_fails)
           (start 2%nat) (start 7%nat)); reflexivity.
Defined.

End ScenarioRuns.

(** ** Properties of the configuration and of the marker validation *)

Section LisaValues.
Import Lisa.

#[local] Arguments String.eqb : simpl never.
#[local] Arguments Z.eqb : simpl never.

Lemma validate_str (v : pyval) :
  validate_value (Class py_str) v = if is_str v then Some v else None.
Proof. by destruct v. Qed.

Lemma validate_object (v : pyval) : validate_value (Class py_object) v = Some v.
Proof. reflexivity. Qed.

Lemma validate_key_literal (name key : string) :
  validate_value (Lit (PStr name)) (PStr key) =
    if String.eqb name key then Some (PStr key) else None.
Proof. reflexivity. Qed.

Lemma validate_category (v : pyval) :
  validate_value
    (Or [Lit (PStr "Functional"); Lit (PStr "Performance");
         Lit (PStr "Stress"); Lit (PStr "Community"); Lit (PStr "Longhaul")])
    v = if is_category v then Some v else None.
Proof.
  destruct v as [| | |s|]; try reflexivity. simpl.
  repeat match goal with
    | |- context [String.eqb ?a s] =>
        destruct (String.eqb_spec a s) as [<-|?]; [reflexivity|]
    end.
  rewrite bool_decide_eq_false_2; [reflexivity|].
  rewrite !elem_of_cons, elem_of_nil. intuition congruence.
Qed.

Lemma validate_priority (v : pyval) :
  validate_value (Or [Lit (PInt 0); Lit (PInt 1); Lit (PInt 2); Lit (PInt 3)]) v
  = if is_priority v then Some v else None.
Proof.
  destruct v as [|[]|n| |]; try reflexivity. simpl.
  repeat match goal with
    | |- context [(?a =? n)%Z] =>
        destruct (Z.eqb_spec a n) as [<-|?]; [reflexivity|]
    end.
  rewrite bool_decide_eq_false_2; [reflexivity|]. lia.
Qed.

Lemma mapM_str (l : list pyval) :
  mapM (fun d => if is_str d then Some d else None) l =
    if forallb is_str l then Some l else None.
Proof.
  induction l as [|d l IH]; [reflexivity|].
  change (mapM ?f (d :: l)) with (y ← f d; k ← mapM f l; mret (y :: k)).
  rewrite IH. simpl. destruct (is_str d); [|reflexivity].
  by destruct (forallb is_str l).
Qed.

Lemma validate_features (v : pyval) :
  validate_value (ListOf [Class py_str]) v =
    if is_str_list v then Some v else None.
Proof.
  destruct v as [| | | |l]; try reflexivity.
  change (validate_value (ListOf [Class py_str]) (PList l))
    with (PList <$> mapM (fun d =>
            match (if isinstance d py_str then Some d else None) with
            | Some v => Some v
            | None => None
            end) l).
  rewrite (mapM_ext _ (fun d => if is_str d then Some d else None));
    [|intros d; by destruct d].
  rewrite mapM_str. simpl. by destruct (forallb is_str l).
Qed.

End LisaValues.

Section LisaLoop.
Import Lisa.
Variable sorted : list (skey * schema).

(** The loop over the items fails exactly when some item is invalid. *)
Lemma validate_items_None (items : list (string * pyval))
    (new : gmap string pyval) (coverage : gset nat) :
  validate_items sorted items new coverage = None <->
  exists key value,
    (key, value) ∈ items /\ validate_item sorted 0 key value = Invalid.
Proof.
  revert new coverage.
  induction items as [|[k v] items IH]; intros new coverage; simpl.
  - split; [discriminate|]. intros (key & value & Hin & _).
    by apply elem_of_nil in Hin.
  - destruct (validate_item sorted 0 k v) as [| |i nv] eqn:E.
    + rewrite IH. split.
      * intros (key & value & Hin & Hbad). exists key, value.
        split; [by apply elem_of_cons; right|done].
      * intros (key & value & Hin & Hbad). exists key, value.
        apply elem_of_cons in Hin as [[= -> ->]|Hin]; [congruence|done].
    + split; [|done]. intros _. exists k, v.
      split; [by apply elem_of_cons; left|done].
    + rewrite IH. split.
      * intros (key & value & Hin & Hbad). exists key, value.
        split; [by apply elem_of_cons; right|done].
      * intros (key & value & Hin & Hbad). exists key, value.
        apply elem_of_cons in Hin as [[= -> ->]|Hin]; [congruence|done].
Qed.

(** When it succeeds, what it leaves in [new] and in [coverage]. *)
Lemma validate_items_Some (items : list (string * pyval))
    (new new' : gmap string pyval) (coverage coverage' : gset nat) :
  NoDup items.*1 ->
  validate_items sorted items new coverage = Some (new', coverage') ->
  (forall key value, (key, value) ∈ items ->
     match validate_item sorted 0 key value with
     | Valid i nvalue => new' !! key = Some nvalue /\ i ∈ coverage'
     | _ => new' !! key = new !! key
     end) /\
  (forall key, key ∉ items.*1 -> new' !! key = new !! key) /\
  (forall i, i ∈ coverage' ->
     i ∈ coverage \/
     exists key value nvalue,
       (key, value) ∈ items /\
       validate_item sorted 0 key value = Valid i nvalue) /\
  coverage ⊆ coverage'.
Proof.
  revert new coverage.
  induction items as [|[k v] items IH]; intros new coverage Hnd Hrun.
  - simpl in Hrun. injection Hrun as <- <-.
    split; [intros key value Hin; by apply elem_of_nil in Hin|].
    split; [done|]. split; [by left|done].
  - simpl in Hnd. apply NoDup_cons in Hnd as [Hk Hnd].
    simpl in Hrun.
    destruct (validate_item sorted 0 k v) as [| |i nv] eqn:E;
      [|discriminate|].
    + destruct (IH _ _ Hnd Hrun) as (Hnew & Hout & Hcov & Hsub).
      split; [|split; [|split]].
      * intros key value Hin.
        apply elem_of_cons in Hin as [[= -> ->]|Hin].
        -- rewrite E. by apply Hout.
        -- by apply Hnew.
      * intros key Hnot. apply Hout. intros Hin. apply Hnot.
        simpl. by apply elem_of_cons; right.
      * intros j Hj. destruct (Hcov j Hj) as [?|(key & value & nv & Hin & Hv)];
          [by left|right].
        exists key, value, nv. split; [by apply elem_of_cons; right|done].
      * done.
    + destruct (IH _ _ Hnd Hrun) as (Hnew & Hout & Hcov & Hsub).
      split; [|split; [|split]].
      * intros key value Hin.
        apply elem_of_cons in Hin as [[= -> ->]|Hin].
        -- rewrite E. split.
           ++ rewrite (Hout k Hk). apply lookup_insert_eq.
           ++ apply Hsub, elem_of_union_l. by apply elem_of_singleton.
        -- pose proof (Hnew key value Hin) as Hkey.
           assert (key <> k) as Hne.
           { intros ->. apply Hk. apply list_elem_of_fmap.
             by exists (k, value). }
           destruct (validate_item sorted 0 key value); [| |done];
             rewrite Hkey; by apply lookup_insert_ne.
      * intros key Hnot. rewrite (Hout key).
        -- apply lookup_insert_ne. intros ->. apply Hnot.
           simpl. by apply elem_of_cons; left.
        -- intros Hin. apply Hnot. simpl. by apply elem_of_cons; right.
      * intros j Hj. destruct (Hcov j Hj) as [Hj'|(key & value & nv' & Hin & Hv)].
        -- apply elem_of_union in Hj' as [Hj'|Hj']; [|by left].
           apply elem_of_singleton in Hj' as ->. right.
           exists k, v, nv. split; [by apply elem_of_cons; left|done].
        -- right. exists key, value, nv'.
           split; [by apply elem_of_cons; right|done].
      * intros j Hj. by apply Hsub, elem_of_union_r.
Qed.

End LisaLoop.

Section LisaSchema.
Import Lisa.

#[local] Arguments String.eqb : simpl never.

Lemma lisa_sorted : sorted_skeys (entries lisa_schema) = entries lisa_schema.
Proof. reflexivity. Qed.

(** What the inner loop decides for one item of the marker arguments. *)
Lemma lisa_item (key : string) (value : pyval) :
  validate_item (entries lisa_schema) 0 key value =
    if String.eqb "platform" key
    then if is_str value then Valid 0 value else Invalid
    else if String.eqb "category" key
    then if is_category value then Valid 1 value else Invalid
    else if String.eqb "area" key
    then if is_str value then Valid 2 value else Invalid
    else if String.eqb "priority" key
    then if is_priority value then Valid 3 value else Invalid
    else if String.eqb "features" key
    then if is_str_list value then Valid 4 value else Invalid
    else Valid 5 value.
Proof.
  unfold lisa_schema. cbn [entries validate_item key_schema].
  rewrite !validate_key_literal, validate_str, validate_category,
    validate_priority, validate_features, !validate_object.
  repeat match goal with
    | |- context [String.eqb ?a key] => destruct (String.eqb a key)
    end;
    repeat match goal with
    | |- context [if ?b then _ else _] => destruct b
    end; reflexivity.
Qed.

Lemma lisa_item_platform (v : pyval) :
  validate_item (entries lisa_schema) 0 "platform" v =
    if is_str v then Valid 0 v else Invalid.
Proof. by rewrite lisa_item. Qed.

Lemma lisa_item_category (v : pyval) :
  validate_item (entries lisa_schema) 0 "category" v =
    if is_category v then Valid 1 v else Invalid.
Proof. by rewrite lisa_item. Qed.

Lemma lisa_item_area (v : pyval) :
  validate_item (entries lisa_schema) 0 "area" v =
    if is_str v then Valid 2 v else Invalid.
Proof. by rewrite lisa_item. Qed.

Lemma lisa_item_priority (v : pyval) :
  validate_item (entries lisa_schema) 0 "priority" v =
    if is_priority v then Valid 3 v else Invalid.
Proof. by rewrite lisa_item. Qed.

Lemma lisa_item_features (v : pyval) :
  validate_item (entries lisa_schema) 0 "features" v =
    if is_str_list v then Valid 4 v else Invalid.
Proof. by rewrite lisa_item. Qed.

(** Every item is matched, and a valid one is kept as it is. *)
Lemma lisa_item_valid (key : string) (v : pyval) (i : nat) (nv : pyval) :
  validate_item (entries lisa_schema) 0 key v = Valid i nv ->
  nv = v /\
  (i = 0%nat -> key = "platform") /\ (i = 1%nat -> key = "category") /\
  (i = 2%nat -> key = "area") /\ (i = 3%nat -> key = "priority") /\
  (i = 4%nat -> key = "features").
Proof.
  rewrite lisa_item.
  repeat match goal with
    | |- context [String.eqb ?a key] =>
        destruct (String.eqb_spec a key) as [<-|?]
    end;
    repeat match goal with
    | |- context [if ?b then _ else _] => destruct b
    end; intros [= <- <-] || discriminate; repeat split; discriminate || done.
Qed.

Lemma lisa_item_matched (key : string) (v : pyval) :
  validate_item (entries lisa_schema) 0 key v <> Unmatched.
Proof.
  rewrite lisa_item.
  repeat match goal with
    | |- context [if ?b then _ else _] => destruct b
    end; discriminate.
Qed.

(** The loop of [lisa_schema] over the marker arguments: it fails when one
    of the five named keys holds an unacceptable value, and otherwise keeps
    every item and covers the named keys that are present. *)
Lemma lisa_items_run (data : gmap string pyval) :
  match validate_items (entries lisa_schema) (map_to_list data) ∅ ∅ with
  | None => present_ok data = false
  | Some (new, coverage) =>
      present_ok data = true /\ new = data /\
      (0%nat ∈ coverage <-> is_Some (data !! "platform")) /\
      (1%nat ∈ coverage <-> is_Some (data !! "category")) /\
      (2%nat ∈ coverage <-> is_Some (data !! "area")) /\
      (3%nat ∈ coverage <-> is_Some (data !! "priority")) /\
      (4%nat ∈ coverage <-> is_Some (data !! "features"))
  end.
Proof.
  destruct (validate_items (entries lisa_schema) (map_to_list data) ∅ ∅)
    as [[new coverage]|] eqn:Hrun.
  - assert (Hvalid : forall k v, data !! k = Some v ->
              validate_item (entries lisa_schema) 0 k v <> Invalid).
    { intros k v Hk Hbad.
      assert (validate_items (entries lisa_schema) (map_to_list data) ∅ ∅
              = None) as Hnone; [|congruence].
      apply validate_items_None. exists k, v.
      split; [by apply elem_of_map_to_list|done]. }
    destruct (validate_items_Some _ _ _ _ _ _
                (NoDup_fst_map_to_list data) Hrun)
      as (Hnew & Hout & Hcov & _).
    assert (Hin : forall k v, data !! k = Some v ->
              new !! k = Some v /\
              exists i, validate_item (entries lisa_schema) 0 k v = Valid i v
                        /\ i ∈ coverage).
    { intros k v Hk.
      pose proof (Hnew k v (proj2 (elem_of_map_to_list data k v) Hk)) as H.
      pose proof (Hvalid k v Hk) as Hv.
      pose proof (lisa_item_matched k v) as Hm.
      destruct (validate_item (entries lisa_schema) 0 k v)
        as [| |i nv] eqn:E; [done|done|].
      destruct (lisa_item_valid k v i nv E) as [-> _].
      destruct H as [H1 H2]. split; [done|]. by exists i. }
    assert (Hcovered : forall i name,
              (forall key v nv,
                 validate_item (entries lisa_schema) 0 key v = Valid i nv ->
                 key = name) ->
              (forall v, data !! name = Some v ->
                 validate_item (entries lisa_schema) 0 name v <> Invalid ->
                 exists nv,
                   validate_item (entries lisa_schema) 0 name v = Valid i nv) ->
              i ∈ coverage <-> is_Some (data !! name)).
    { intros i name Honly Hthis. split.
      - intros Hi. destruct (Hcov i Hi) as [Hi'|(key & v & nv & Hk & E)].
        + by apply elem_of_empty in Hi'.
        + rewrite (Honly key v nv E) in Hk.
          apply elem_of_map_to_list in Hk. by exists v.
      - intros [v Hk]. destruct (Hin name v Hk) as (_ & j & E & Hj).
        destruct (Hthis v Hk (Hvalid name v Hk)) as (nv & E').
        rewrite E in E'. by injection E' as -> _. }
    split; [|split; [|split; [|split; [|split; [|split]]]]].
    + unfold present_ok.
      pose proof (Hvalid "platform") as H0. pose proof (Hvalid "category") as H1.
      pose proof (Hvalid "area") as H2. pose proof (Hvalid "priority") as H3.
      pose proof (Hvalid "features") as H4.
      destruct (data !! "platform") as [v0|]; simpl;
        [specialize (H0 v0 eq_refl); rewrite lisa_item_platform in H0;
         destruct (is_str v0); [simpl|done]|].
      all: destruct (data !! "category") as [v1|]; simpl;
        [specialize (H1 v1 eq_refl); rewrite lisa_item_category in H1;
         destruct (is_category v1); [simpl|done]|].
      all: destruct (data !! "area") as [v2|]; simpl;
        [specialize (H2 v2 eq_refl); rewrite lisa_item_area in H2;
         destruct (is_str v2); [simpl|done]|].
      all: destruct (data !! "priority") as [v3|]; simpl;
        [specialize (H3 v3 eq_refl); rewrite lisa_item_priority in H3;
         destruct (is_priority v3); [simpl|done]|].
      all: destruct (data !! "features") as [v4|]; simpl;
        [specialize (H4 v4 eq_refl); rewrite lisa_item_features in H4;
         destruct (is_str_list v4); [simpl|done]|].
      all: reflexivity.
    + apply map_eq. intros k. destruct (data !! k) as [v|] eqn:Hk.
      * by destruct (Hin k v Hk) as [-> _].
      * rewrite Hout; [apply lookup_empty|].
        intros Hmem. apply list_elem_of_fmap in Hmem as ([k' v] & -> & Hmem).
        apply elem_of_map_to_list in Hmem. simpl in Hk. congruence.
    + apply Hcovered.
      * intros key v nv E. by apply (lisa_item_valid key v 0 nv E).
      * intros v _. rewrite lisa_item_platform. destruct (is_str v); eauto.
        done.
    + apply Hcovered.
      * intros key v nv E. by apply (lisa_item_valid key v 1 nv E).
      * intros v _. rewrite lisa_item_category. destruct (is_category v); eauto.
        done.
    + apply Hcovered.
      * intros key v nv E. by apply (lisa_item_valid key v 2 nv E).
      * intros v _. rewrite lisa_item_area. destruct (is_str v); eauto.
        done.
    + apply Hcovered.
      * intros key v nv E. by apply (lisa_item_valid key v 3 nv E).
      * intros v _. rewrite lisa_item_priority. destruct (is_priority v); eauto.
        done.
    + apply Hcovered.
      * intros key v nv E. by apply (lisa_item_valid key v 4 nv E).
      * intros v _. rewrite lisa_item_features. destruct (is_str_list v); eauto.
        done.
  - apply validate_items_None in Hrun as (k & v & Hk & Hbad).
    apply elem_of_map_to_list in Hk. rewrite lisa_item in Hbad.
    unfold present_ok.
    repeat match type of Hbad with
      | context [String.eqb ?a k] =>
          destruct (String.eqb_spec a k) as [<-|?]
      end;
      repeat match type of Hbad with
      | context [if ?b then _ else _] => destruct b eqn:?
      end; try discriminate;
      rewrite Hk; simpl;
      repeat match goal with
      | H : ?p v = false |- _ => rewrite H
      end; rewrite ?andb_false_r; reflexivity.
Qed.

Lemma lisa_required (i : nat) :
  i ∈ required (entries lisa_schema) 0 <->
  i = 0%nat \/ i = 1%nat \/ i = 2%nat \/ i = 3%nat.
Proof.
  cbn. rewrite !elem_of_union, !elem_of_singleton, !elem_of_empty. tauto.
Qed.

Lemma has_true (p : pyval -> bool) (o : option pyval) :
  has p o = true <-> is_Some o /\ optional_ok p o = true.
Proof.
  destruct o as [v|]; simpl.
  - split; [intros ->; eauto|by intros [_ ->]].
  - split; [done|]. by intros [[? ?] _].
Qed.

Lemma lisa_accepts_true (data : gmap string pyval) :
  lisa_accepts data = true <->
  present_ok data = true /\
  is_Some (data !! "platform") /\ is_Some (data !! "category") /\
  is_Some (data !! "area") /\ is_Some (data !! "priority").
Proof.
  unfold lisa_accepts, mandatory_ok, present_ok.
  rewrite !andb_true_iff, !has_true. tauto.
Qed.

(** C10 (amended).  [lisa_schema] accepts the marker arguments if and only
    if [platform] and [area] are strings, [category] is one of the five
    category names, [priority] is equal to one of 0, 1, 2, 3 (which a
    boolean is), and [features], where present, is a list of strings.  The
    validated dict is the data itself, with [features] set to the empty
    list where it was absent; so a key other than these five never causes
    a rejection and is kept, and [validate] leaves in [mark.kwargs] the
    arguments it found plus that default. *)
Theorem lisa_schema_accepts_iff (data : gmap string pyval) :
  validate_dict lisa_schema data =
    (if lisa_accepts data then Some (with_default_features data) else None) /\
  (forall key value,
     key ∉ ["platform"; "category"; "area"; "priority"; "features"] ->
     lisa_accepts (<[key:=value]> data) = lisa_accepts data) /\
  (data !! "features" = None ->
   with_default_features data !! "features" = Some (PList [])) /\
  (lisa_accepts data = true ->
   validate {| args := []; kwargs := data |} =
     (None, {| args := []; kwargs := with_default_features data |})).
Proof.
  assert (Hmain : validate_dict lisa_schema data =
    (if lisa_accepts data then Some (with_default_features data) else None)).
  { unfold validate_dict. rewrite lisa_sorted.
    pose proof (lisa_items_run data) as Hrun.
    destruct (validate_items (entries lisa_schema) (map_to_list data) ∅ ∅)
      as [[new coverage]|]; cbn [mbind option_bind].
    - destruct Hrun as (Hok & -> & H0 & H1 & H2 & H3 & H4).
      destruct (bool_decide_reflect
                  (required (entries lisa_schema) 0 ⊆ coverage)) as [Hsub|Hsub];
        cbn [negb ignore_extra_keys lisa_schema andb apply_defaults entries].
      + assert (lisa_accepts data = true) as ->.
        { apply lisa_accepts_true. split; [done|].
          rewrite <- H0, <- H1, <- H2, <- H3.
          repeat split; apply Hsub, lisa_required; tauto. }
        f_equal. unfold with_default_features.
        destruct (decide (4%nat ∈ coverage)) as [Hin|Hin].
        * apply H4 in Hin as [v ->]. reflexivity.
        * destruct (data !! "features") as [v|] eqn:E; [|reflexivity].
          exfalso. apply Hin, H4. by exists v.
      + destruct (lisa_accepts data) eqn:Hacc; [|reflexivity].
        exfalso. apply Hsub. intros i Hi.
        apply lisa_accepts_true in Hacc as (_ & ? & ? & ? & ?).
        apply lisa_required in Hi as [-> | [-> | [-> | ->]]];
          [by apply H0|by apply H1|by apply H2|by apply H3].
    - destruct (lisa_accepts data) eqn:Hacc; [|reflexivity].
      apply lisa_accepts_true in Hacc as [Hacc _]. congruence. }
  split; [exact Hmain|]. split; [|split].
  - intros key value Hkey.
    unfold lisa_accepts, mandatory_ok.
    rewrite !elem_of_cons, elem_of_nil in Hkey.
    rewrite !lookup_insert_ne by (intros ->; tauto). reflexivity.
  - intros Hnone. unfold with_default_features. rewrite Hnone.
    apply lookup_insert_eq.
  - intros Hacc. unfold validate. simpl. rewrite Hmain, Hacc.
    do 2 f_equal. apply map_eq. intros k.
    unfold with_default_features.
    destruct (data !! "features") eqn:E.
    + by rewrite map_union_idemp.
    + rewrite lookup_union. destruct (decide (k = "features")) as [->|Hne].
      * by rewrite lookup_insert_eq, E.
      * rewrite lookup_insert_ne by done. by destruct (data !! k).
Qed.

(** C10, as stated, fails: marker arguments whose four mandatory keys are
    in order are rejected all the same when [features] is not a list of
    strings. *)
Lemma features_must_be_a_list_of_strings :
  mandatory_ok (<["features" := PStr "gpu"]> minimal_kwargs) = true /\
  validate_dict lisa_schema (<["features" := PStr "gpu"]> minimal_kwargs)
    = None.
Proof. split; vm_compute; reflexivity. Qed.

(** C7.  The run configuration sets [command_timeout] to 1200 (seconds). *)
Theorem command_timeout_default :
  config !! "run" ≫= (.!! "command_timeout") = Some (PInt 1200).
Proof. reflexivity. Qed.

(** C9.  A mark with positional arguments makes [validate] fail its
    assertion, with its message, whatever the keyword arguments are, and
    [mark.kwargs] is left as it was: the schema is consulted only for a
    mark without positional arguments, and only then can [validate] end in
    a schema error or change [mark.kwargs]. *)
Theorem validate_rejects_positional_arguments (mark : Mark) :
  args mark <> [] ->
  validate mark =
    (Some (AssertionError "LISA marker cannot have positional arguments!"),
     mark) /\
  (forall kw,
     (validate {| args := args mark; kwargs := kw |}).1 =
       Some (AssertionError "LISA marker cannot have positional arguments!")) /\
  (forall m : Mark,
     (validate m).1 <>
       Some (AssertionError "LISA marker cannot have positional arguments!") ->
     args m = [] /\
     (validate m).1 =
       match validate_dict lisa_schema (kwargs m) with
       | Some _ => None
       | None => Some SchemaError
       end).
Proof.
  intros Hargs. unfold validate.
  destruct (args mark) as [|a rest] eqn:E; [done|].
  split; [done|]. split; [done|].
  intros m Hm. destruct (args m) as [|a' rest']; [|done].
  split; [done|]. by destruct (validate_dict lisa_schema (kwargs m)).
Qed.

Lemma validate_rejects_positional_arguments_witness :
  validate {| args := [PStr "Azure"]; kwargs := minimal_kwargs |} =
    (Some (AssertionError "LISA marker cannot have positional arguments!"),
     {| args := [PStr "Azure"]; kwargs := minimal_kwargs |}).
Proof.
  apply (validate_rejects_positional_arguments
           {| args := [PStr "Azure"]; kwargs := minimal_kwargs |}).
  discriminate.
Defined.

End LisaSchema.

(** ** Further properties of the smoke test *)

Section SmokeShape.
Import Smoke.
Context {W : Type} (node : Node W).

Ltac run_monad :=
  unfold ssh_before_reboot, ssh_after_reboot, reboot_step, final_checks,
    try_except_else, logging_info, logging_warning, emit, invoke, when,
    py_assert, load, raise, mbind, M_bind, mret, M_ret; simpl.

Lemma ssh_after_reboot_uncaught (s : state W) (e : exn) (w1 : W) :
  run node "uptime" true (world s) = (Raised e, w1) ->
  ssh_errors e = false ->
  ssh_after_reboot node s =
    (Raised e,
     {| world := w1;
        trace := trace s ++
          [Logged INFO "SSHing after reboot..."; Called (run_call "uptime")]
     |}).
Proof.
  intros Hrun He. run_monad. rewrite Hrun, He. simpl.
  rewrite <- ?app_assoc; simpl; reflexivity.
Qed.

(** What each guarded block adds to the trace, whatever the node does. *)
Lemma ssh_before_reboot_any (s : state W) :
  exists t,
    trace (ssh_before_reboot node s).2 = trace s ++ t /\
    calls t = [run_call "uptime"] /\ infos t = ["SSHing before reboot..."].
Proof.
  destruct (run node "uptime" true (world s)) as [[r|e] w] eqn:E.
  - rewrite (ssh_before_reboot_returned node s r w E). by eexists.
  - destruct (ssh_errors e) eqn:He.
    + rewrite (ssh_before_reboot_caught node s e w E He). by eexists.
    + rewrite (ssh_before_reboot_uncaught node s e w E He). by eexists.
Qed.

Lemma ssh_after_reboot_any (s : state W) :
  exists t,
    trace (ssh_after_reboot node s).2 = trace s ++ t /\
    calls t = [run_call "uptime"] /\ infos t = ["SSHing after reboot..."].
Proof.
  destruct (run node "uptime" true (world s)) as [[r|e] w] eqn:E.
  - rewrite (ssh_after_reboot_returned node s r w E). by eexists.
  - destruct (ssh_errors e) eqn:He.
    + rewrite (ssh_after_reboot_caught node s e w E He). by eexists.
    + rewrite (ssh_after_reboot_uncaught s e w E He). by eexists.
Qed.

Lemma reboot_step_any (s : state W) :
  exists t (fallback : bool),
    trace (reboot_step node s).2 = trace s ++ t /\
    calls t =
      sudo_call "reboot" :: (if fallback then [platform_restart_call] else [])
    /\ infos t = ["Rebooting..."] /\
    (fallback = true ->
     exists e w', sudo node "reboot" true (world s) = (Raised e, w') /\
                  ssh_errors e = true).
Proof.
  destruct (sudo node "reboot" true (world s)) as [[r|e] w] eqn:E.
  - rewrite (reboot_step_returned node s r w E).
    eexists _, false. split; [reflexivity|].
    by destruct (exited r =? -1)%Z.
  - destruct (ssh_errors e) eqn:He.
    + rewrite (reboot_step_caught node s e w E He).
      destruct (platform_restart node w) as [[[]|e'] w2];
        eexists _, true; (split; [reflexivity|]); repeat split; eauto.
    + rewrite (reboot_step_uncaught node s e w E He).
      eexists _, false. by repeat split.
Qed.

Ltac not_in_calls :=
  let H := fresh in
  intros H; simpl in H;
  repeat (destruct H as [H|H]; [discriminate|]); destruct H.

Ltac shape_leaf fb Hfb :=
  eexists _, fb;
  repeat match goal with
    | H : trace _ = _ |- _ => rewrite H; clear H
    end;
  rewrite <- ?app_assoc; simpl;
  split; [reflexivity|];
  autorewrite with observe;
  repeat match goal with
    | H : calls _ = _ |- _ => rewrite H; clear H
    | H : infos _ = _ |- _ => rewrite H; clear H
    end;
  unfold stage_calls, stage_infos; simpl;
  split; [destruct fb; by eexists|];
  split; [by eexists|];
  split; [first [discriminate | intros _; rewrite ?app_nil_r; done]|];
  split; [first [exact Hfb | discriminate]|];
  first [destruct fb; [done|not_in_calls] | not_in_calls].

(** The shape of every run, whatever the node does: the calls and the INFO
    records it adds are an initial part of those of a complete run, and
    they are all there if the test passed. *)
Lemma test_smoke_shape (s : state W) :
  exists (t : list event) (fallback : bool),
    trace (test_smoke node s).2 = trace s ++ t /\
    calls t `prefix_of` stage_calls fallback /\
    infos t `prefix_of` stage_infos /\
    (passed (test_smoke node s).1 = true ->
     calls t = stage_calls fallback /\ infos t = stage_infos) /\
    (fallback = true ->
     exists w e w', sudo node "reboot" true w = (Raised e, w') /\
                    ssh_errors e = true) /\
    (In platform_restart_call (calls t) -> fallback = true).
Proof.
  unfold test_smoke, mbind, M_bind, logging_info, emit, invoke; simpl.
  destruct (ping node true (world s)) as [[p1|e] w1]; simpl;
    [|shape_leaf false I].
  match goal with |- context [ssh_before_reboot node ?st] =>
    destruct (ssh_before_reboot_any st) as (t1 & Ht1 & Hc1 & Hi1);
    destruct (ssh_before_reboot node st) as [[o1|e] s2] end;
    simpl in *; [|shape_leaf false I].
  destruct (reboot_step_any s2) as (t2 & fb & Ht2 & Hc2 & Hi2 & Hfb).
  assert (Hfb' : fb = true ->
            exists w e w', sudo node "reboot" true w = (Raised e, w') /\
                           ssh_errors e = true).
  { intros Hb. destruct (Hfb Hb) as (e & w' & ?). by exists (world s2), e, w'. }
  clear Hfb.
  destruct (reboot_step node s2) as [[rb|e] s3]; simpl in *;
    [|shape_leaf fb Hfb'].
  destruct (ping node true (world s3)) as [[p2|e] w4]; simpl;
    [|shape_leaf fb Hfb'].
  match goal with |- context [ssh_after_reboot node ?st] =>
    destruct (ssh_after_reboot_any st) as (t3 & Ht3 & Hc3 & Hi3);
    destruct (ssh_after_reboot node st) as [[o2|e] s5] end;
    simpl in *; [|shape_leaf fb Hfb'].
  destruct (get_boot_diagnostics node (world s5)) as [[[]|e] w6]; simpl;
    [|shape_leaf fb Hfb'].
  match goal with |- context [final_checks node _ _ _ _ ?st] =>
    destruct (final_checks_quiet node p1 p2 o1 o2 st) as (t4 & Ht4 & Hc4 & Hi4);
    destruct (final_checks node p1 o1 p2 o2 st) as [r sf] end;
    simpl in *; subst sf; simpl.
  shape_leaf fb Hfb'.
Qed.

(** X1.  Whatever the node does, and wherever a run stops, the node calls
    it made are an initial part of the sequence ping, uptime, reboot,
    (platform restart,) ping, uptime, diagnostics, and the INFO records it
    logged are an initial part of the six that announce them: no stage is
    entered out of order or twice. *)
Theorem calls_follow_the_stage_order (s : state W) :
  exists (t : list event) (fallback : bool),
    trace (test_smoke node s).2 = trace s ++ t /\
    calls t `prefix_of` stage_calls fallback /\
    infos t `prefix_of` stage_infos.
Proof.
  destruct (test_smoke_shape s) as (t & fb & Ht & Hc & Hi & _).
  by exists t, fb.
Qed.

(** X2.  A run that passes has gone through every stage: all the node
    calls of a complete run were made, and all six INFO records logged. *)
Theorem passing_run_is_complete (s : state W) :
  passed (test_smoke node s).1 = true ->
  exists (t : list event) (fallback : bool),
    trace (test_smoke node s).2 = trace s ++ t /\
    calls t = stage_calls fallback /\ infos t = stage_infos.
Proof.
  intros Hpass.
  destruct (test_smoke_shape s) as (t & fb & Ht & _ & _ & Hfull & _).
  destruct (Hfull Hpass) as [Hc Hi]. by exists t, fb.
Qed.

(** The world an SSH probe leaves is the one its [run] call left. *)
Lemma ssh_before_reboot_world (s : state W) :
  world (ssh_before_reboot node s).2 = (run node "uptime" true (world s)).2.
Proof.
  destruct (run node "uptime" true (world s)) as [[r|e] w] eqn:E.
  - by rewrite (ssh_before_reboot_returned node s r w E).
  - destruct (ssh_errors e) eqn:He.
    + by rewrite (ssh_before_reboot_caught node s e w E He).
    + by rewrite (ssh_before_reboot_uncaught node s e w E He).
Qed.

Ltac no_platform_call :=
  lazymatch goal with
  | Ht : _ = _ ++ ?t, Hin : In platform_restart_call (calls ?t) |- _ =>
      symmetry in Ht;
      repeat match goal with
        | H : trace _ = _ |- _ => rewrite H in Ht; clear H
        end;
      rewrite <- ?app_assoc in Ht; simpl in Ht;
      apply app_inv_head in Ht; rewrite Ht in Hin;
      autorewrite with observe in Hin;
      repeat match goal with
        | H : calls _ = _ |- _ => rewrite H in Hin; clear H
        end;
      simpl in Hin; exfalso; revert Hin; clear; intuition discriminate
  end.

(** X3.  The platform restart is never invoked on its own account: if a
    run called it, then in that run the first ping returned, the SSH probe
    ended (in whatever way) and the reboot over SSH, called in the world
    the probe left, raised one of [ssh_errors]. *)
Theorem platform_restart_only_after_ssh_fault (s : state W) (t : list event) :
  trace (test_smoke node s).2 = trace s ++ t ->
  In platform_restart_call (calls t) ->
  exists p1 w1 x w2 e w',
    ping node true (world s) = (Returned p1, w1) /\
    run node "uptime" true w1 = (x, w2) /\
    sudo node "reboot" true w2 = (Raised e, w') /\
    ssh_errors e = true.
Proof.
  unfold test_smoke, mbind, M_bind, logging_info, emit, invoke; simpl.
  destruct (ping node true (world s)) as [[p1|e] w1] eqn:E1; simpl;
    intros Ht Hin; [|no_platform_call].
  revert Ht.
  match goal with |- context [ssh_before_reboot node ?st] =>
    pose proof (ssh_before_reboot_world st) as Hw; simpl in Hw;
    destruct (ssh_before_reboot_any st) as (t1 & Ht1 & Hc1 & Hi1);
    destruct (ssh_before_reboot node st) as [[o1|e] s2] end;
    simpl in *; intros Ht; [|no_platform_call].
  destruct (run node "uptime" true w1) as [x w2] eqn:E2. simpl in Hw.
  revert Ht.
  destruct (reboot_step_any s2) as (t2 & fb & Ht2 & Hc2 & Hi2 & Hfb).
  destruct fb.
  { intros _. destruct (Hfb eq_refl) as (e & w' & Es & He).
    rewrite Hw in Es. exists p1, w1, x, w2, e, w'. by repeat split. }
  clear Hfb.
  destruct (reboot_step node s2) as [[rb|e] s3]; simpl in *;
    intros Ht; [|no_platform_call].
  revert Ht.
  destruct (ping node true (world s3)) as [[p2|e] w4]; simpl;
    intros Ht; [|no_platform_call].
  revert Ht.
  match goal with |- context [ssh_after_reboot node ?st] =>
    destruct (ssh_after_reboot_any st) as (t3 & Ht3 & Hc3 & Hi3);
    destruct (ssh_after_reboot node st) as [[o2|e] s5] end;
    simpl in *; intros Ht; [|no_platform_call].
  revert Ht.
  destruct (get_boot_diagnostics node (world s5)) as [[[]|e] w6]; simpl;
    intros Ht; [|no_platform_call].
  revert Ht.
  match goal with |- context [final_checks node _ _ _ _ ?st] =>
    destruct (final_checks_quiet node p1 p2 o1 o2 st) as (t4 & Ht4 & Hc4 & Hi4);
    destruct (final_checks node p1 o1 p2 o2 st) as [r sf] end;
    simpl in *; subst sf; simpl; intros Ht.
  no_platform_call.
Qed.

(** The verdict of the deferred checks, in the order the code takes them. *)
Lemma final_checks_outcome (p1 p2 : Result) (o1 o2 : option Result)
    (s : state W) :
  (final_checks node p1 o1 p2 o2 s).1 =
    if ok p1
    then match o1 with
         | None => Raised (UnboundLocalError "ssh1")
         | Some _ =>
             if ok p2
             then match o2 with
                  | None => Raised (UnboundLocalError "ssh2")
                  | Some _ => Returned tt
                  end
             else Raised (AssertionError
                    ("Pinging " +:+ host node +:+ " after reboot failed"))
         end
    else Raised (AssertionError
           ("Pinging " +:+ host node +:+ " before reboot failed")).
Proof.
  run_monad. destruct (ok p1); simpl; [|done].
  destruct o1 as [r1|]; simpl; [|done].
  destruct (ok r1), (ok p2); simpl; try done;
    destruct o2 as [r2|]; simpl; try done; by destruct (ok r2).
Qed.

(** A run whose stages all complete ends in the deferred checks. *)
Lemma test_smoke_completed (s s2 s3 s5 : state W) (p1 p2 : Result)
    (o1 o2 rb : option Result) (w1 w4 w6 : W) :
  ping node true (world s) = (Returned p1, w1) ->
  ssh_before_reboot node
    {| world := w1;
       trace := trace s ++
         [Logged INFO "Pinging before reboot..."; Called ping_call] |}
    = (Returned o1, s2) ->
  reboot_step node s2 = (Returned rb, s3) ->
  ping node true (world s3) = (Returned p2, w4) ->
  ssh_after_reboot node
    {| world := w4;
       trace := trace s3 ++
         [Logged INFO "Pinging after reboot..."; Called ping_call] |}
    = (Returned o2, s5) ->
  get_boot_diagnostics node (world s5) = (Returned tt, w6) ->
  test_smoke node s =
    final_checks node p1 o1 p2 o2
      {| world := w6;
         trace := trace s5 ++
           [Logged INFO "Retrieving boot diagnostics...";
            Called get_boot_diagnostics_call] |}.
Proof.
  intros E1 E2 E3 E4 E5 E6.
  unfold test_smoke, mbind, M_bind, logging_info, emit, invoke; simpl.
  rewrite E1. rewrite <- !app_assoc. simpl. rewrite E2, E3. simpl.
  rewrite E4. rewrite <- !app_assoc. simpl. rewrite E5. simpl.
  rewrite E6. rewrite <- !app_assoc. reflexivity.
Qed.

(** X4.  The verdict of a run whose stages all complete.  The deferred
    checks are taken in order and the first that fails decides: the first
    ping not [ok] (an assertion error naming the host), then [ssh1] left
    unassigned by its handler (an [UnboundLocalError]), then the second
    ping, then [ssh2]; the test passes only if both pings are [ok] and
    both SSH probes returned a result. *)
Theorem verdict_of_a_completed_run (s s2 s3 s5 : state W) (p1 p2 : Result)
    (o1 o2 rb : option Result) (w1 w4 w6 : W) :
  ping node true (world s) = (Returned p1, w1) ->
  ssh_before_reboot node
    {| world := w1;
       trace := trace s ++
         [Logged INFO "Pinging before reboot..."; Called ping_call] |}
    = (Returned o1, s2) ->
  reboot_step node s2 = (Returned rb, s3) ->
  ping node true (world s3) = (Returned p2, w4) ->
  ssh_after_reboot node
    {| world := w4;
       trace := trace s3 ++
         [Logged INFO "Pinging after reboot..."; Called ping_call] |}
    = (Returned o2, s5) ->
  get_boot_diagnostics node (world s5) = (Returned tt, w6) ->
  (test_smoke node s).1 =
    if ok p1
    then match o1 with
         | None => Raised (UnboundLocalError "ssh1")
         | Some _ =>
             if ok p2
             then match o2 with
                  | None => Raised (UnboundLocalError "ssh2")
                  | Some _ => Returned tt
                  end
             else Raised (AssertionError
                    ("Pinging " +:+ host node +:+ " after reboot failed"))
         end
    else Raised (AssertionError
           ("Pinging " +:+ host node +:+ " before reboot failed")).
Proof.
  intros E1 E2 E3 E4 E5 E6.
  rewrite (test_smoke_completed s s2 s3 s5 p1 p2 o1 o2 rb w1 w4 w6
             E1 E2 E3 E4 E5 E6).
  apply final_checks_outcome.
Qed.

Lemma reboot_step_begins (s : state W) :
  exists t,
    trace (reboot_step node s).2 =
      trace s ++
      [Logged INFO "Rebooting..."; Called (sudo_call "reboot")] ++ t.
Proof.
  destruct (sudo node "reboot" true (world s)) as [[r|e] w] eqn:E.
  - rewrite (reboot_step_returned node s r w E). by eexists.
  - destruct (ssh_errors e) eqn:He.
    + rewrite (reboot_step_caught node s e w E He).
      destruct (platform_restart node w) as [[[]|e'] w2]; by eexists.
    + rewrite (reboot_step_uncaught node s e w E He). by exists [].
Qed.

Ltac grows :=
  repeat match goal with
    | H : trace _ = _ |- _ => rewrite H; clear H
    end;
  rewrite <- ?app_assoc; simpl; by eexists.

(** Once the SSH probe before the reboot has ended without an escaping
    exception, the run goes on to the reboot, and only adds to the trace
    from there. *)
Lemma run_after_first_probe (s s2 : state W) (p1 : Result)
    (o1 : option Result) (w1 : W) :
  ping node true (world s) = (Returned p1, w1) ->
  ssh_before_reboot node
    {| world := w1;
       trace := trace s ++
         [Logged INFO "Pinging before reboot..."; Called ping_call] |}
    = (Returned o1, s2) ->
  exists t,
    trace (test_smoke node s).2 =
      trace s2 ++
      [Logged INFO "Rebooting..."; Called (sudo_call "reboot")] ++ t.
Proof.
  intros E1 E2.
  unfold test_smoke, mbind, M_bind, logging_info, emit, invoke; simpl.
  rewrite E1. rewrite <- !app_assoc. simpl. rewrite E2.
  destruct (reboot_step_begins s2) as (t2 & Ht2).
  destruct (reboot_step node s2) as [[rb|e] s3]; simpl in *; [|grows].
  destruct (ping node true (world s3)) as [[p2|e] w4]; simpl; [|grows].
  match goal with |- context [ssh_after_reboot node ?st] =>
    destruct (ssh_after_reboot_any st) as (t3 & Ht3 & _ & _);
    destruct (ssh_after_reboot node st) as [[o2|e] s5] end;
    simpl in *; [|grows].
  destruct (get_boot_diagnostics node (world s5)) as [[[]|e] w6]; simpl;
    [|grows].
  match goal with |- context [final_checks node _ _ _ _ ?st] =>
    destruct (final_checks_quiet node p1 p2 o1 o2 st) as (t4 & Ht4 & _ & _);
    destruct (final_checks node p1 o1 p2 o2 st) as [r sf] end;
    simpl in *; subst sf; simpl.
  grows.
Qed.

(** Likewise after the SSH probe that follows the reboot: the run goes on
    to fetch the boot diagnostics. *)
Lemma run_after_second_probe (s s2 s3 s5 : state W) (p1 p2 : Result)
    (o1 o2 rb : option Result) (w1 w4 : W) :
  ping node true (world s) = (Returned p1, w1) ->
  ssh_before_reboot node
    {| world := w1;
       trace := trace s ++
         [Logged INFO "Pinging before reboot..."; Called ping_call] |}
    = (Returned o1, s2) ->
  reboot_step node s2 = (Returned rb, s3) ->
  ping node true (world s3) = (Returned p2, w4) ->
  ssh_after_reboot node
    {| world := w4;
       trace := trace s3 ++
         [Logged INFO "Pinging after reboot..."; Called ping_call] |}
    = (Returned o2, s5) ->
  exists t,
    trace (test_smoke node s).2 =
      trace s5 ++
      [Logged INFO "Retrieving boot diagnostics...";
       Called get_boot_diagnostics_call] ++ t.
Proof.
  intros E1 E2 E3 E4 E5.
  unfold test_smoke, mbind, M_bind, logging_info, emit, invoke; simpl.
  rewrite E1. rewrite <- !app_assoc. simpl. rewrite E2, E3. simpl.
  rewrite E4. rewrite <- !app_assoc. simpl. rewrite E5. simpl.
  destruct (get_boot_diagnostics node (world s5)) as [[[]|e] w6]; simpl;
    [|grows].
  match goal with |- context [final_checks node _ _ _ _ ?st] =>
    destruct (final_checks_quiet node p1 p2 o1 o2 st) as (t4 & Ht4 & _ & _);
    destruct (final_checks node p1 o1 p2 o2 st) as [r sf] end;
    simpl in *; subst sf; simpl.
  grows.
Qed.

(** C1 (amended).  In a run whose first ping returns:
    - if every later call of the node returns too (both SSH probes, the
      second ping and the diagnostics; the reboot step by either
      strategy), the test passes if and only if both pings are [ok]: the
      results of the SSH probes do not enter the verdict, and a probe that
      exited with a failure is logged as a warning by the deferred checks
      only when the assertions placed before its check passed (the first
      probe's when the first ping is [ok], the second probe's when both
      pings are [ok]);
    - if the SSH probe before the reboot raises one of [ssh_errors], the
      fault is caught and recorded as a warning that quotes it, and the
      run goes on to the reboot;
    - if the SSH probe after the reboot raises one of [ssh_errors] (the
      stages before it having ended without an escaping exception), the
      fault is caught and recorded as a warning that quotes it, and the
      run goes on to fetch the boot diagnostics.
    What the verdict is after a probe raised is not stated. *)
Theorem verdict_is_reachability (s : state W) (p1 : Result) (w1 : W) :
  ping node true (world s) = (Returned p1, w1) ->
  (forall (s3 : state W) (r1 p2 r2 : Result) (rb : option Result)
          (w2 w4 w5 w6 : W),
     run node "uptime" true w1 = (Returned r1, w2) ->
     reboot_step node
       {| world := w2;
          trace := trace s ++
            [Logged INFO "Pinging before reboot..."; Called ping_call;
             Logged INFO "SSHing before reboot...";
             Called (run_call "uptime")] |} = (Returned rb, s3) ->
     ping node true (world s3) = (Returned p2, w4) ->
     run node "uptime" true w4 = (Returned r2, w5) ->
     get_boot_diagnostics node w5 = (Returned tt, w6) ->
     passed (test_smoke node s).1 = ok p1 && ok p2 /\
     warnings (trace (test_smoke node s).2) =
       warnings (trace s3) ++
       (if ok p1
        then (if ok r1 then []
              else ["SSH command '" +:+ command r1 +:+
                    "' before reboot failed"])
             ++
             (if ok p2
              then if ok r2 then []
                   else ["SSH command '" +:+ command r2 +:+
                         "' after reboot failed"]
              else [])
        else [])) /\
  (forall (e : exn) (w2 : W),
     run node "uptime" true w1 = (Raised e, w2) ->
     ssh_errors e = true ->
     exists t,
       trace (test_smoke node s).2 =
         trace s ++
         [Logged INFO "Pinging before reboot..."; Called ping_call;
          Logged INFO "SSHing before reboot..."; Called (run_call "uptime");
          Logged WARNING ("SSH before reboot failed: '" +:+ str e +:+ "'");
          Logged INFO "Rebooting..."; Called (sudo_call "reboot")] ++ t) /\
  (forall (s2 s3 : state W) (p2 : Result) (o1 rb : option Result)
          (e : exn) (w4 w5 : W),
     ssh_before_reboot node
       {| world := w1;
          trace := trace s ++
            [Logged INFO "Pinging before reboot..."; Called ping_call] |}
       = (Returned o1, s2) ->
     reboot_step node s2 = (Returned rb, s3) ->
     ping node true (world s3) = (Returned p2, w4) ->
     run node "uptime" true w4 = (Raised e, w5) ->
     ssh_errors e = true ->
     exists t,
       trace (test_smoke node s).2 =
         trace s3 ++
         [Logged INFO "Pinging after reboot..."; Called ping_call;
          Logged INFO "SSHing after reboot..."; Called (run_call "uptime");
          Logged WARNING ("SSH after reboot failed: '" +:+ str e +:+ "'");
          Logged INFO "Retrieving boot diagnostics...";
          Called get_boot_diagnostics_call] ++ t).
Proof.
  intros E1. split; [|split].
  - intros s3 r1 p2 r2 rb w2 w4 w5 w6 E2 E3 E4 E5 E6.
    exact (verdict_when_probes_return node s s3 p1 r1 p2 r2 rb
             w1 w2 w4 w5 w6 E1 E2 E3 E4 E5 E6).
  - intros e w2 E2 He.
    pose proof (ssh_before_reboot_caught node
      {| world := w1;
         trace := trace s ++
           [Logged INFO "Pinging before reboot..."; Called ping_call] |}
      e w2 E2 He) as E2'.
    destruct (run_after_first_probe s _ p1 None w1 E1 E2') as (t & Ht).
    exists t. rewrite Ht. simpl. rewrite <- !app_assoc. reflexivity.
  - intros s2 s3 p2 o1 rb e w4 w5 E2 E3 E4 E5 He.
    pose proof (ssh_after_reboot_caught node
      {| world := w4;
         trace := trace s3 ++
           [Logged INFO "Pinging after reboot..."; Called ping_call] |}
      e w5 E5 He) as E5'.
    destruct (run_after_second_probe s s2 s3 _ p1 p2 o1 None rb w1 w4
                E1 E2 E3 E4 E5') as (t & Ht).
    exists t. rewrite Ht. simpl. rewrite <- !app_assoc. reflexivity.
Qed.

(** X5.  An SSH probe before the reboot that raises one of [ssh_errors] is
    caught and logged as a warning that quotes the fault, and the run goes
    on to the reboot; but if it then completes and the first ping was
    [ok], the test fails with an [UnboundLocalError] on [ssh1], whatever
    the second ping and the second probe gave. *)
Theorem caught_probe_fault_fails_the_test (s s3 s5 : state W) (p1 p2 : Result)
    (e : exn) (o2 rb : option Result) (w1 w2 w4 w6 : W) :
  ping node true (world s) = (Returned p1, w1) ->
  ok p1 = true ->
  run node "uptime" true w1 = (Raised e, w2) ->
  ssh_errors e = true ->
  reboot_step node
    {| world := w2;
       trace := trace s ++
         [Logged INFO "Pinging before reboot..."; Called ping_call;
          Logged INFO "SSHing before reboot..."; Called (run_call "uptime");
          Logged WARNING ("SSH before reboot failed: '" +:+ str e +:+ "'")]
    |} = (Returned rb, s3) ->
  ping node true (world s3) = (Returned p2, w4) ->
  ssh_after_reboot node
    {| world := w4;
       trace := trace s3 ++
         [Logged INFO "Pinging after reboot..."; Called ping_call] |}
    = (Returned o2, s5) ->
  get_boot_diagnostics node (world s5) = (Returned tt, w6) ->
  (test_smoke node s).1 = Raised (UnboundLocalError "ssh1") /\
  exists t,
    trace (test_smoke node s).2 =
      trace s ++
      [Logged INFO "Pinging before reboot..."; Called ping_call;
       Logged INFO "SSHing before reboot..."; Called (run_call "uptime");
       Logged WARNING ("SSH before reboot failed: '" +:+ str e +:+ "'");
       Logged INFO "Rebooting..."; Called (sudo_call "reboot")] ++ t.
Proof.
  intros E1 Hok E2 He E3 E4 E5 E6.
  pose proof (ssh_before_reboot_caught node
    {| world := w1;
       trace := trace s ++
         [Logged INFO "Pinging before reboot..."; Called ping_call] |}
    e w2 E2 He) as E2'.
  split.
  - simpl in E2'. rewrite <- app_assoc in E2'. simpl in E2'.
    rewrite (test_smoke_completed s _ s3 s5 p1 p2 None o2 rb w1 w4 w6
               E1 E2' E3 E4 E5 E6).
    rewrite final_checks_outcome, Hok. reflexivity.
  - destruct (run_after_first_probe s _ p1 None w1 E1 E2') as (t & Ht).
    exists t. rewrite Ht. simpl. rewrite <- !app_assoc. reflexivity.
Qed.


(** X7.  The SSH probe before the reboot is guarded against [ssh_errors]
    only: any other exception it raises ends the test at once with that
    exception, after the ping and the probe, and no reboot is attempted. *)
Theorem probe_fault_outside_ssh_errors_aborts (s : state W) (p1 : Result)
    (e : exn) (w1 w2 : W) :
  ping node true (world s) = (Returned p1, w1) ->
  run node "uptime" true w1 = (Raised e, w2) ->
  ssh_errors e = false ->
  test_smoke node s =
    (Raised e,
     {| world := w2;
        trace := trace s ++
          [Logged INFO "Pinging before reboot..."; Called ping_call;
           Logged INFO "SSHing before reboot..."; Called (run_call "uptime")]
     |}).
Proof.
  intros E1 E2 He.
  unfold test_smoke, mbind, M_bind, logging_info, emit, invoke; simpl.
  rewrite E1.
  match goal with |- context [ssh_before_reboot node ?st] =>
    rewrite (ssh_before_reboot_uncaught node st e w2 E2 He) end.
  simpl. rewrite <- !app_assoc. reflexivity.
Qed.

(** X8.  The pings are not guarded at all: an exception raised by the
    first ping, be it one of [ssh_errors], ends the test at once with that
    exception, and the ping is the only call made. *)
Theorem ping_fault_aborts (s : state W) (e : exn) (w1 : W) :
  ping node true (world s) = (Raised e, w1) ->
  test_smoke node s =
    (Raised e,
     {| world := w1;
        trace := trace s ++
          [Logged INFO "Pinging before reboot..."; Called ping_call] |}).
Proof.
  intros E1.
  unfold test_smoke, mbind, M_bind, logging_info, emit, invoke; simpl.
  rewrite E1. rewrite <- !app_assoc. reflexivity.
Qed.

End SmokeShape.

Section MoreScenarioRuns.
Import Smoke Scenario.





Lemma verdict_is_reachability_witness :
  (passed (test_smoke (scripted lost_after_reboot) (start 0%nat)).1 =
     ok (completed "ping" 0) && ok (completed "ping" 1) /\
   warnings (trace (test_smoke (scripted lost_after_reboot) (start 0%nat)).2)
     = ["SSH command 'uptime' before reboot failed"]) /\
  (exists t,
     trace (test_smoke (scripted ssh_down_before) (start 0%nat)).2 =
       trace (start 0%nat) ++
       [Logged INFO "Pinging before reboot..."; Called ping_call;
        Logged INFO "SSHing before reboot..."; Called (run_call "uptime");
        Logged WARNING "SSH before reboot failed: 'timed out'";
        Logged INFO "Rebooting..."; Called (sudo_call "reboot")] ++ t) /\
  (exists t,
     trace (test_smoke (scripted ssh_down_after) (start 0%nat)).2 =
       [Logged INFO "Pinging before reboot..."; Called ping_call;
        Logged INFO "SSHing before reboot..."; Called (run_call "uptime");
        Logged INFO "Rebooting..."; Called (sudo_call "reboot")] ++
       [Logged INFO "Pinging after reboot..."; Called ping_call;
        Logged INFO "SSHing after reboot..."; Called (run_call "uptime");
        Logged WARNING "SSH after reboot failed: 'no route'";
        Logged INFO "Retrieving boot diagnostics...";
        Called get_boot_diagnostics_call] ++ t).
Proof.
  split; [|split].
  - apply (proj1 (verdict_is_reachability (scripted lost_after_reboot)
                    (start 0%nat) (completed "ping" 0) 1%nat eq_refl)
             {| world := 3%nat;
                trace :=
                  [Logged INFO "Pinging before reboot..."; Called ping_call;
                   Logged INFO "SSHing before reboot...";
                   Called (run_call "uptime");
                   Logged INFO "Rebooting..."; Called (sudo_call "reboot")]
             |}
             (completed "uptime" 255) (completed "ping" 1)
             (completed "uptime" 255)
             (Some (completed "sudo reboot" (-1)))
             2%nat 4%nat 5%nat 6%nat); reflexivity.
  - apply (proj1 (proj2 (verdict_is_reachability (scripted ssh_down_before)
                           (start 0%nat) (completed "ping" 0) 1%nat eq_refl))
             (TimeoutError "timed out") 2%nat); reflexivity.
  - apply (proj2 (proj2 (verdict_is_reachability (scripted ssh_down_after)
                           (start 0%nat) (completed "ping" 0) 1%nat eq_refl))
             {| world := 2%nat;
                trace :=
                  [Logged INFO "Pinging before reboot..."; Called ping_call;
                   Logged INFO "SSHing before reboot...";
                   Called (run_call "uptime")] |}
             {| world := 3%nat;
                trace :=
                  [Logged INFO "Pinging before reboot..."; Called ping_call;
                   Logged INFO "SSHing before reboot...";
                   Called (run_call "uptime");
                   Logged INFO "Rebooting..."; Called (sudo_call "reboot")]
             |}
             (completed "ping" 0) (Some (completed "uptime" 0))
             (Some (completed "sudo reboot" (-1)))
             (SSHException "no route") 4%nat 5%nat); reflexivity.
Defined.

Lemma passing_run_is_complete_witness :
  exists (t : list event) (fallback : bool),
    trace (test_smoke (scripted healthy) (start 0%nat)).2 =
      trace (start 0%nat) ++ t /\
    calls t = stage_calls fallback /\ infos t = stage_infos.
Proof.
  apply (passing_run_is_complete (scripted healthy) (start 0%nat)).
  reflexivity.
Defined.

Lemma platform_restart_only_after_ssh_fault_witness :
  exists p1 w1 x w2 e w',
    ping (scripted ssh_reboot_fails) true (world (start 0%nat)) =
      (Returned p1, w1) /\
    run (scripted ssh_reboot_fails) "uptime" true w1 = (x, w2) /\
    sudo (scripted ssh_reboot_fails) "reboot" true w2 = (Raised e, w') /\
    ssh_errors e = true.
Proof.
  apply (platform_restart_only_after_ssh_fault (scripted ssh_reboot_fails)
           (start 0%nat)
           (trace (test_smoke (scripted ssh_reboot_fails) (start 0%nat)).2)).
  - reflexivity.
  - vm_compute. tauto.
Defined.

Lemma verdict_of_a_completed_run_witness :
  (test_smoke (scripted ssh_down_after) (start 0%nat)).1 =
    Raised (UnboundLocalError "ssh2").
Proof.
  exact (verdict_of_a_completed_run (scripted ssh_down_after) (start 0%nat)
           _ _ _ _ _ _ _ _ _ _ _
           eq_refl eq_refl eq_refl eq_refl eq_refl eq_refl).
Defined.

Lemma caught_probe_fault_fails_the_test_witness :
  (test_smoke (scripted ssh_down_before) (start 0%nat)).1 =
    Raised (UnboundLocalError "ssh1") /\
  exists t,
    trace (test_smoke (scripted ssh_down_before) (start 0%nat)).2 =
      trace (start 0%nat) ++
      [Logged INFO "Pinging before reboot..."; Called ping_call;
       Logged INFO "SSHing before reboot..."; Called (run_call "uptime");
       Logged WARNING "SSH before reboot failed: 'timed out'";
       Logged INFO "Rebooting..."; Called (sudo_call "reboot")] ++ t.
Proof.
  exact (caught_probe_fault_fails_the_test (scripted ssh_down_before)
           (start 0%nat) _ _ _ _ _ _ _ _ _ _ _
           eq_refl eq_refl eq_refl eq_refl eq_refl eq_refl eq_refl eq_refl).
Defined.


Lemma probe_fault_outside_ssh_errors_aborts_witness :
  test_smoke (scripted probe_crashes) (start 0%nat) =
    (Raised (OtherError "ValueError" "bad host key"),
     {| world := 2%nat;
        trace :=
          [Logged INFO "Pinging before reboot..."; Called ping_call;
           Logged INFO "SSHing before reboot..."; Called (run_call "uptime")]
     |}).
Proof.
  apply (probe_fault_outside_ssh_errors_aborts (scripted probe_crashes)
           (start 0%nat) (completed "ping" 0) _ 1%nat 2%nat); reflexivity.
Defined.

Lemma ping_fault_aborts_witness :
  test_smoke (scripted ping_times_out) (start 0%nat) =
    (Raised (TimeoutError "timed out"),
     {| world := 1%nat;
        trace := [Logged INFO "Pinging before reboot..."; Called ping_call]
     |}).
Proof.
  apply (ping_fault_aborts (scripted ping_times_out) (start 0%nat)).
  reflexivity.
Defined.

End MoreScenarioRuns.

(** ** Further properties of the marker validation *)

Section LisaValidate.
Import Lisa.

(** What [lisa_schema.validate] gives for any marker arguments. *)
Lemma lisa_validate_dict (data : gmap string pyval) :
  validate_dict lisa_schema data =
    if lisa_accepts data then Some (with_default_features data) else None.
Proof.
  unfold validate_dict. rewrite lisa_sorted.
  pose proof (lisa_items_run data) as Hrun.
  destruct (validate_items (entries lisa_schema) (map_to_list data) ∅ ∅)
    as [[new coverage]|]; cbn [mbind option_bind].
  - destruct Hrun as (Hok & -> & H0 & H1 & H2 & H3 & H4).
    destruct (bool_decide_reflect
                (required (entries lisa_schema) 0 ⊆ coverage)) as [Hsub|Hsub];
      cbn [negb ignore_extra_keys lisa_schema andb apply_defaults entries].
    + assert (lisa_accepts data = true) as ->.
      { apply lisa_accepts_true. split; [done|].
        rewrite <- H0, <- H1, <- H2, <- H3.
        repeat split; apply Hsub, lisa_required; tauto. }
      f_equal. unfold with_default_features.
      destruct (decide (4%nat ∈ coverage)) as [Hin|Hin].
      * apply H4 in Hin as [v ->]. reflexivity.
      * destruct (data !! "features") as [v|] eqn:E; [|reflexivity].
        exfalso. apply Hin, H4. by exists v.
    + destruct (lisa_accepts data) eqn:Hacc; [|reflexivity].
      exfalso. apply Hsub. intros i Hi.
      apply lisa_accepts_true in Hacc as (_ & ? & ? & ? & ?).
      apply lisa_required in Hi as [-> | [-> | [-> | ->]]];
        [by apply H0|by apply H1|by apply H2|by apply H3].
  - destruct (lisa_accepts data) eqn:Hacc; [|reflexivity].
    apply lisa_accepts_true in Hacc as [Hacc _]. congruence.
Qed.

Lemma with_default_features_ne (data : gmap string pyval) (key : string) :
  key <> "features" -> with_default_features data !! key = data !! key.
Proof.
  intros Hne. unfold with_default_features.
  destruct (data !! "features"); [done|]. by apply lookup_insert_ne.
Qed.

Lemma with_default_features_features (data : gmap string pyval) :
  with_default_features data !! "features" =
    Some (default (PList []) (data !! "features")).
Proof.
  unfold with_default_features.
  destruct (data !! "features") eqn:E; [done|]. apply lookup_insert_eq.
Qed.

Lemma with_default_features_union (data : gmap string pyval) :
  with_default_features data ∪ data = with_default_features data.
Proof.
  apply map_eq. intros k. rewrite lookup_union.
  destruct (decide (k = "features")) as [->|Hne].
  - rewrite with_default_features_features.
    by destruct (data !! "features").
  - rewrite with_default_features_ne by done. by destruct (data !! k).
Qed.

Lemma with_default_features_again (data : gmap string pyval) :
  with_default_features (with_default_features data) =
    with_default_features data.
Proof.
  unfold with_default_features at 1.
  by rewrite with_default_features_features.
Qed.

Lemma lisa_accepts_with_default (data : gmap string pyval) :
  lisa_accepts data = true ->
  lisa_accepts (with_default_features data) = true.
Proof.
  unfold lisa_accepts, mandatory_ok.
  rewrite with_default_features_features,
    !with_default_features_ne by done.
  intros H. apply andb_true_iff in H as [-> H]. simpl.
  by destruct (data !! "features").
Qed.

(** [validate], case by case. *)
Lemma validate_outcome (mark : Mark) :
  validate mark =
    match args mark with
    | _ :: _ =>
        (Some (AssertionError "LISA marker cannot have positional arguments!"),
         mark)
    | [] =>
        if lisa_accepts (kwargs mark)
        then (None,
              {| args := []; kwargs := with_default_features (kwargs mark) |})
        else (Some SchemaError, mark)
    end.
Proof.
  unfold validate. destruct (args mark) as [|a rest] eqn:E; [|done].
  rewrite lisa_validate_dict.
  destruct (lisa_accepts (kwargs mark)); [|done].
  by rewrite with_default_features_union.
Qed.

Lemma validate_succeeded (mark : Mark) :
  (validate mark).1 = None ->
  args mark = [] /\ lisa_accepts (kwargs mark) = true /\
  (validate mark).2 =
    {| args := []; kwargs := with_default_features (kwargs mark) |}.
Proof.
  rewrite validate_outcome.
  destruct (args mark); [|done].
  by destruct (lisa_accepts (kwargs mark)).
Qed.

(** X9.  [validate] is idempotent on a mark it accepted: validating the
    mark it left succeeds again and changes nothing more. *)
Theorem validate_is_idempotent (mark : Mark) :
  (validate mark).1 = None ->
  validate (validate mark).2 = (None, (validate mark).2).
Proof.
  intros Hok. destruct (validate_succeeded mark Hok) as (_ & Hacc & ->).
  rewrite validate_outcome. simpl.
  by rewrite (lisa_accepts_with_default _ Hacc), with_default_features_again.
Qed.

(** X10.  Whatever it decides, [validate] never touches the positional
    arguments, never removes or changes a keyword argument that was given
    (a given [features] included), and adds no key other than
    [features]. *)
Theorem validate_keeps_the_arguments (mark : Mark) :
  args (validate mark).2 = args mark /\
  (forall key value,
     kwargs mark !! key = Some value ->
     kwargs (validate mark).2 !! key = Some value) /\
  (forall key,
     key <> "features" ->
     kwargs (validate mark).2 !! key = kwargs mark !! key).
Proof.
  rewrite validate_outcome.
  destruct (args mark) as [|a rest] eqn:E; [|simpl; by rewrite E].
  destruct (lisa_accepts (kwargs mark)); [|simpl; by rewrite E].
  simpl. split; [done|]. split.
  - intros key value Hk. destruct (decide (key = "features")) as [->|Hne].
    + by rewrite with_default_features_features, Hk.
    + by rewrite with_default_features_ne.
  - intros key Hne. by apply with_default_features_ne.
Qed.

(** X11.  A mark without positional arguments that lacks one of the four
    mandatory keys is rejected with a schema error, whatever its other
    arguments are, and is left as it was. *)
Theorem validate_rejects_a_missing_key (mark : Mark) (key : string) :
  args mark = [] ->
  key ∈ ["platform"; "category"; "area"; "priority"] ->
  kwargs mark !! key = None ->
  validate mark = (Some SchemaError, mark).
Proof.
  intros Hargs Hkey Hnone. rewrite validate_outcome, Hargs.
  assert (lisa_accepts (kwargs mark) = false) as ->; [|done].
  unfold lisa_accepts, mandatory_ok.
  rewrite !elem_of_cons, elem_of_nil in Hkey.
  destruct Hkey as [-> | [-> | [-> | [-> | []]]]]; rewrite Hnone; simpl;
    rewrite ?andb_false_r; reflexivity.
Qed.

(** X12.  The priority is bounded: an integer outside 0..3, or a string,
    as [priority] makes the schema reject the arguments, whatever the other
    arguments are. *)
Theorem priority_out_of_range_is_rejected (data : gmap string pyval) :
  (forall n : Z, ~ (0 <= n <= 3)%Z ->
     validate_dict lisa_schema (<["priority" := PInt n]> data) = None) /\
  (forall s : string,
     validate_dict lisa_schema (<["priority" := PStr s]> data) = None).
Proof.
  split; [intros n Hn|intros s]; rewrite lisa_validate_dict;
    unfold lisa_accepts, mandatory_ok; rewrite lookup_insert_eq; simpl;
    rewrite ?bool_decide_eq_false_2 by done;
    rewrite ?andb_false_r; reflexivity.
Qed.

(** X13.  The priority is compared with [==], so a boolean passes for 1 or
    0: replacing the priority of accepted arguments by [True] or [False]
    leaves them accepted. *)
Theorem boolean_priority_is_accepted (data : gmap string pyval) (b : bool) :
  lisa_accepts data = true ->
  validate_dict lisa_schema (<["priority" := PBool b]> data) =
    Some (with_default_features (<["priority" := PBool b]> data)).
Proof.
  intros Hacc. rewrite lisa_validate_dict.
  assert (lisa_accepts (<["priority" := PBool b]> data) = true) as ->; [|done].
  revert Hacc. unfold lisa_accepts, mandatory_ok.
  rewrite lookup_insert_eq, !lookup_insert_ne by done. simpl.
  rewrite !andb_true_iff. intros [[[[-> ->] ->] _] ->]. done.
Qed.

(** X14.  After a successful [validate], [mark.kwargs] holds all five
    named keys: [platform] and [area] are strings, [category] is one of
    the five category names, [priority] is equal to one of 0, 1, 2, 3, and
    [features] is a list of strings. *)
Theorem validated_kwargs_are_complete (mark : Mark) :
  (validate mark).1 = None ->
  (exists p, kwargs (validate mark).2 !! "platform" = Some (PStr p)) /\
  (exists c, kwargs (validate mark).2 !! "category" = Some (PStr c) /\
             c ∈ ["Functional"; "Performance"; "Stress"; "Community";
                  "Longhaul"]) /\
  (exists a, kwargs (validate mark).2 !! "area" = Some (PStr a)) /\
  (exists v n, kwargs (validate mark).2 !! "priority" = Some v /\
               (0 <= n <= 3)%Z /\ py_eq (PInt n) v = true) /\
  (exists l, kwargs (validate mark).2 !! "features" = Some (PList l) /\
             Forall (fun x => exists s, x = PStr s) l).
Proof.
  intros Hok. destruct (validate_succeeded mark Hok) as (_ & Hacc & ->).
  simpl. rewrite with_default_features_features,
    !with_default_features_ne by done.
  revert Hacc. unfold lisa_accepts, mandatory_ok.
  rewrite !andb_true_iff. intros [[[[H0 H1] H2] H3] H4].
  repeat split.
  - destruct (kwargs mark !! "platform") as [[]|]; try done. eauto.
  - destruct (kwargs mark !! "category") as [[| | |c|]|]; try done.
    exists c. split; [done|]. simpl in H1. by apply bool_decide_eq_true in H1.
  - destruct (kwargs mark !! "area") as [[]|]; try done. eauto.
  - destruct (kwargs mark !! "priority") as [[|b|n| |]|]; try done.
    + exists (PBool b), (Z.b2z b). split; [done|]. split.
      * destruct b; simpl; lia.
      * simpl. apply Z.eqb_refl.
    + exists (PInt n), n. split; [done|]. simpl in H3.
      apply bool_decide_eq_true in H3. split; [done|]. simpl.
      apply Z.eqb_refl.
  - destruct (kwargs mark !! "features") as [[| | | |l]|]; simpl in *;
      try done.
    + exists l. split; [done|]. apply Forall_forall. intros x Hx.
      rewrite forallb_forall in H4.
      apply list_elem_of_In in Hx. specialize (H4 x Hx).
      destruct x; try done. eauto.
    + exists []. by split.
Qed.

Lemma validate_is_idempotent_witness :
  validate (validate {| args := []; kwargs := minimal_kwargs |}).2 =
    (None, (validate {| args := []; kwargs := minimal_kwargs |}).2).
Proof.
  apply (validate_is_idempotent {| args := []; kwargs := minimal_kwargs |}).
  vm_compute. reflexivity.
Defined.

Lemma validate_rejects_a_missing_key_witness :
  validate {| args := []; kwargs := delete "area" minimal_kwargs |} =
    (Some SchemaError,
     {| args := []; kwargs := delete "area" minimal_kwargs |}).
Proof.
  apply (validate_rejects_a_missing_key
           {| args := []; kwargs := delete "area" minimal_kwargs |} "area").
  - reflexivity.
  - apply elem_of_cons; right. apply elem_of_cons; right.
    apply elem_of_cons; left. reflexivity.
  - vm_compute. reflexivity.
Defined.

Lemma boolean_priority_is_accepted_witness :
  validate_dict lisa_schema (<["priority" := PBool true]> minimal_kwargs) =
    Some (with_default_features (<["priority" := PBool true]> minimal_kwargs)).
Proof.
  apply (boolean_priority_is_accepted minimal_kwargs true).
  vm_compute. reflexivity.
Defined.

Lemma validated_kwargs_are_complete_witness :
  exists l,
    kwargs (validate {| args := []; kwargs := minimal_kwargs |}).2
      !! "features" = Some (PList l) /\
    Forall (fun x => exists s, x = PStr s) l.
Proof.
  apply (validated_kwargs_are_complete
           {| args := []; kwargs := minimal_kwargs |}).
  vm_compute. reflexivity.
Defined.

End LisaValidate.
